(** * mail2mongo: a shallow embedding of [mail2mongo/__init__.py]

    The development follows the source file top to bottom:
    Python strings and the [str] methods the program calls, the
    [email.message.Message] objects handed over by the SMTP engine,
    [MessageHandler] (normalisation, persistence retry loop, live
    notification) and [Application] (subscription registry, relay
    authorisation callback). *)

From Stdlib Require Import ZArith NArith Ascii String DecimalString List Lia.
From stdpp Require Import base option list gmap.
Import ListNotations.

Local Open Scope N_scope.

(** ** Python strings *)

(** A Python [str] is a sequence of Unicode code points. *)
Abbreviation str := (list N).

(** A string literal of the source, as code points. *)
Definition py (s : string) : str :=
  List.map N_of_ascii (list_ascii_of_string s).

(** A one-character literal. *)
Definition chr (c : ascii) : N := N_of_ascii c.
Arguments chr : simpl never.

Module Str.

(** [str.isspace] on one character: the code points CPython's
    [_PyUnicode_IsWhitespace] accepts. *)
Definition isspace (c : N) : bool :=
  ((9 <=? c) && (c <=? 13)) || ((28 <=? c) && (c <=? 31)) || (c =? 32)
  || (c =? 133) || (c =? 160) || (c =? 5760)
  || ((8192 <=? c) && (c <=? 8202))
  || (c =? 8232) || (c =? 8233) || (c =? 8239) || (c =? 8287)
  || (c =? 12288).

(** Membership of a character in the [chars] argument of [strip]. *)
Definition in_chars (chars : str) (c : N) : bool :=
  existsb (N.eqb c) chars.

(** Drop characters from the left end while [p] holds. *)
Fixpoint lstrip_with (p : N -> bool) (s : str) : str :=
  match s with
  | [] => []
  | c :: s' => if p c then lstrip_with p s' else s
  end.

(** The same from the right end. *)
Definition rstrip_with (p : N -> bool) (s : str) : str :=
  rev (lstrip_with p (rev s)).

(** CPython's [do_strip]/[do_argstrip] with [BOTHSTRIP]: advance the
    left index, then retreat the right index, return the slice. *)
Definition strip_with (p : N -> bool) (s : str) : str :=
  rstrip_with p (lstrip_with p s).

(** [s.strip()] *)
Definition strip (s : str) : str := strip_with isspace s.

(** [s.strip(chars)] *)
Definition strip_chars (chars : str) (s : str) : str :=
  strip_with (in_chars chars) s.

(** [s.split(sep)] for a one-character separator, the only kind the
    program uses: every occurrence of [sep] ends a piece, so the result
    always has at least one element. *)
Fixpoint split (sep : N) (s : str) : list str :=
  match s with
  | [] => [[]]
  | c :: s' =>
      if c =? sep then [] :: split sep s'
      else match split sep s' with
           | [] => [[c]]
           | w :: ws => (c :: w) :: ws
           end
  end.

(** ASCII case folding, enough for [str.lower] on header names, which
    the parser restricts to printable ASCII. *)
Definition lower_char (c : N) : N :=
  if (65 <=? c) && (c <=? 90) then c + 32 else c.

Definition lower (s : str) : str := List.map lower_char s.

End Str.

(** ** Exceptions and results *)

Inductive exc : Type :=
| IndexError
| KeyError (key : str)
| AttributeError
| PyMongoError (info : str)   (* pymongo.errors.PyMongoError and subclasses *)
| Exception (info : str).     (* any exception outside the classes above *)

Inductive result (A : Type) : Type :=
| Return (a : A)
| Raise (e : exc).
Arguments Return {A} a.
Arguments Raise {A} e.

(** [l[i]] on a Python list with a non-negative index. *)
Definition getitem {A} (l : list A) (i : nat) : result A :=
  match nth_error l i with
  | Some x => Return x
  | None => Raise IndexError
  end.

Definition bind {A B} (r : result A) (k : A -> result B) : result B :=
  match r with
  | Return a => k a
  | Raise e => Raise e
  end.

(** ** Messages delivered by the SMTP engine *)

(** An [email.message.Message]: its header list in order of appearance,
    the value of [get_content_type()], and its payload, which is a string
    for a leaf and the list of sub-messages when [is_multipart()]. *)
Inductive message : Type :=
| Message (headers : list (str * str)) (content_type : str) (body : content)
with content : Type :=
| Text (s : str)
| Multipart (parts : list message).

Definition headers (m : message) : list (str * str) :=
  match m with Message h _ _ => h end.

Definition get_content_type (m : message) : str :=
  match m with Message _ t _ => t end.

Definition get_payload (m : message) : content :=
  match m with Message _ _ b => b end.

Definition is_multipart (m : message) : bool :=
  match get_payload m with
  | Multipart _ => true
  | Text _ => false
  end.

(** Lookup in a list of headers whose values are strings: the value of
    the first header whose name matches case-insensitively, [failobj] when
    there is none. *)
Fixpoint get_header (hs : list (str * str)) (name failobj : str) : str :=
  match hs with
  | [] => failobj
  | (k, v) :: hs' =>
      if bool_decide (Str.lower k = Str.lower name) then v
      else get_header hs' name failobj
  end.

(** What [Message.get] hands back for a header: the string itself, or an
    [email.header.Header] object made from it. *)
Inductive field : Type :=
| Plain (s : str)
| HeaderObject (value : str) (header_name : str).

(** [email.utils._has_surrogates]: the string cannot be encoded as UTF-8,
    which is the case exactly when it holds a code point from U+D800 to
    U+DFFF.  The parser leaves such code points where the mail had raw
    8-bit bytes. *)
Definition has_surrogates (s : str) : bool :=
  existsb (fun c => (55296 <=? c) && (c <=? 57343)) s.

(** [Compat32.header_fetch_parse], through [_sanitize_header]. *)
Definition header_fetch_parse (name value : str) : field :=
  if has_surrogates value then HeaderObject value name else Plain value.

(** [Message.get(name, failobj)]: the first header whose name matches
    case-insensitively, passed through the policy; [failobj] when there
    is none. *)
Fixpoint get_field (hs : list (str * str)) (name : str) (failobj : field)
    : field :=
  match hs with
  | [] => failobj
  | (k, v) :: hs' =>
      if bool_decide (Str.lower k = Str.lower name)
      then header_fetch_parse k v
      else get_field hs' name failobj
  end.

Definition get (m : message) (name : str) (failobj : field) : field :=
  get_field (headers m) name failobj.

(** ** Records, events and the shared state of the process *)

(** [datetime.now(timezone.utc)] is read from the environment. *)
Abbreviation datetime := Z.

(** The [payload] dict of [handle_message]: four keys at construction,
    ['text'] added once the body has been extracted.  (The ['_id'] key
    that the driver adds on insertion is not tracked.) *)
Record payload : Type := Payload {
  from : field;
  to : field;
  subject : field;
  timestamp : datetime;
  text : option str
}.

(** A websocket object, identified by the order of creation. *)
Abbreviation websocket := nat.

(** The dicts passed to [send_json]. *)
Inductive event_payload : Type :=
| Msg (msg : str)             (* {'msg': msg} *)
| Mail (p : payload).         (* the payload dict itself *)

Record ws_event : Type := Event {
  type : str;
  event_body : event_payload
}.

(** Lines written through [LOG.error]. *)
Inductive log_record : Type :=
| LogExc (e : exc)
| LogPayload (p : payload)
| LogRetry (sleep_time : Z)
| LogNoTextPlain (p : payload) (rendering : str).

(** What a coroutine does to the outside world, in program order. *)
Inductive action : Type :=
| InsertOne (p : payload) (raised : option exc)
| LogError (l : log_record)
| Sleep (seconds : Z)
| WsGet (key : str) (found : option websocket)
| SendJson (w : websocket) (ev : ws_event) (raised : option exc)
| Close (w : websocket).

(** A future created by [asyncio.ensure_future(self.process_payload(p))]. *)
Inductive future : Type :=
| ProcessPayload (p : payload).

(** How far a coroutine got: it returned, it raised, or it is still
    suspended inside its loop when the observation ends. *)
Inductive outcome : Type :=
| Done
| Raised (e : exc)
| Pending.

(** ** class MessageHandler *)

Module MessageHandler.

(** *** process_payload *)

Section ProcessPayload.

(** The collaborators of one unit: what the [k]-th call of
    [self._mongo.insert_one] does ([None]: it returns), what
    [send_json] does on a given websocket, and the content of the
    shared dict [self._ws_conn] when the unit reads it. *)
Variable insert_one : nat -> option exc.
Variable send_json : websocket -> ws_event -> option exc.
Variable _ws_conn : gmap str websocket.

(** The [while True] loop.  [fuel] bounds the number of iterations
    observed, [attempt] counts the calls of [insert_one] made so far
    and [sleep_time] is the local variable of that name. *)
Fixpoint persist (fuel : nat) (p : payload) (attempt : nat)
    (sleep_time : Z) : outcome * list action :=
  match fuel with
  | O => (Pending, [])
  | S fuel' =>
      match insert_one attempt with
      | None => (Done, [InsertOne p None])
      | Some (PyMongoError info) =>
          let e := PyMongoError info in
          let (o, tr) := persist fuel' p (S attempt) (2 * sleep_time) in
          (o, InsertOne p (Some e)
                :: LogError (LogExc e)
                :: LogError (LogPayload p)
                :: LogError (LogRetry sleep_time)
                :: Sleep sleep_time
                :: tr)
      | Some e => (Raised e, [InsertOne p (Some e)])
      end
  end.

(** The statements after the loop: look the recipient up, and send
    when a websocket is registered.  A [Header] object is not hashable,
    so [dict.get] raises [TypeError] for it. *)
Definition notify (p : payload) : outcome * list action :=
  match to p with
  | HeaderObject _ _ => (Raised (Exception (py "TypeError")), [])
  | Plain key =>
      let websock := _ws_conn !! key in
      match websock with
      | None => (Done, [WsGet key None])
      | Some w =>
          let ev := Event (py "new_mail") (Mail p) in
          let r := send_json w ev in
          (match r with None => Done | Some e => Raised e end,
           [WsGet key (Some w); SendJson w ev r])
      end
  end.

Definition process_payload (fuel : nat) (p : payload)
    : outcome * list action :=
  match persist fuel p 0 60 with
  | (Done, tr) => let (o, tr') := notify p in (o, tr ++ tr')
  | (o, tr) => (o, tr)
  end.

End ProcessPayload.

(** *** handle_message *)

(** The [for ... else] over [message.get_payload()]: the payload of the
    first part whose content type is ['text/plain'], [None] when the
    loop runs to its [else]. *)
Fixpoint scan_parts (parts : list message) : option content :=
  match parts with
  | [] => None
  | msg :: rest =>
      if bool_decide (get_content_type msg = py "text/plain")
      then Some (get_payload msg)
      else scan_parts rest
  end.

(** [.strip().strip('\n').strip('\r').strip()]; LF is code point 10 and
    CR is 13. *)
Definition strip_text (s : str) : str :=
  Str.strip (Str.strip_chars [13] (Str.strip_chars [10] (Str.strip s))).

Definition set_text (p : payload) (s : str) : payload :=
  Payload (from p) (to p) (subject p) (timestamp p) (Some s).

(** Lines 88-99: trim the text, create the future and append it to
    [self._app_tasks].  Trimming a payload that is not a string fails
    with [AttributeError]. *)
Definition schedule (p : payload) (c : content) (_app_tasks : list future)
    : result unit * list future * list action :=
  match c with
  | Text s =>
      let p' := set_text p (strip_text s) in
      (Return tt, _app_tasks ++ [ProcessPayload p'], [])
  | Multipart _ => (Raise AttributeError, _app_tasks, [])
  end.

(** [handle_message]: the result, the task list afterwards and the
    actions performed.  Matching on the payload is the [is_multipart()]
    test: the payload is a list exactly when that method answers [True].
    [as_string] is what [message.as_string()] does, the rendering or the
    exception it raises; in the [else] branch it is evaluated as an
    argument, before [LOG.error] is called. *)
Definition handle_message (as_string : message -> result str)
    (now : datetime) (m : message) (_app_tasks : list future)
    : result unit * list future * list action :=
  let p := {| from := get m (py "From") (Plain []);
              to := get m (py "To") (Plain []);
              subject := get m (py "Subject") (Plain []);
              timestamp := now;
              text := None |} in
  match get_payload m with
  | Multipart parts =>
      match scan_parts parts with
      | Some c => schedule p c _app_tasks
      | None =>
          match as_string m with
          | Return rendering =>
              (Return tt, _app_tasks,
               [LogError (LogNoTextPlain p rendering)])
          | Raise e => (Raise e, _app_tasks, [])
          end
      end
  | Text s => schedule p (Text s) _app_tasks
  end.

End MessageHandler.

(** ** class Application *)

(** [str(n)] for an [int]. *)
Definition str_of_int (n : Z) : str :=
  py (NilZero.string_of_int (Z.to_int n)).

(** An aiohttp request, as far as the handlers read it: the query string
    as a multi-dict with case-sensitive keys, the headers as a multi-dict
    with case-insensitive names. *)
Record request : Type := Request {
  query : list (str * str);
  req_headers : list (str * str)
}.

(** [key in request.query] and [request.query[key]] (first value). *)
Fixpoint query_get (q : list (str * str)) (key : str) : option str :=
  match q with
  | [] => None
  | (k, v) :: q' => if bool_decide (k = key) then Some v else query_get q' key
  end.

(** [request.headers.get(name, default)] *)
Definition headers_get (rq : request) (name default : str) : str :=
  get_header (req_headers rq) name default.

(** [request.headers[name]] *)
Fixpoint headers_lookup (hs : list (str * str)) (name : str) : result str :=
  match hs with
  | [] => Raise (KeyError name)
  | (k, v) :: hs' =>
      if bool_decide (Str.lower k = Str.lower name) then Return v
      else headers_lookup hs' name
  end.

(** [web.Response(status=..., headers=...)] *)
Record response : Type := Response {
  status : Z;
  resp_headers : list (str * str)
}.

(** Why the [async for] over a websocket ended. *)
Inductive leave : Type :=
| ClientClosed
| Failed (e : exc)
| Shutdown.

Module Application.

(** The attributes of the object that the handlers use, and
    [listening]: the [websocket_handler] coroutines suspended in their
    [async for] loop, each with its websocket and the value of
    [request.query['email']] it registered. *)
Record app : Type := App {
  _ws_conn : gmap str websocket;
  _allow_domains : list str;
  _smtp_port : Z;
  listening : list (websocket * str)
}.

Definition with_registry (a : app) (reg : gmap str websocket)
    (ls : list (websocket * str)) : app :=
  App reg (_allow_domains a) (_smtp_port a) ls.

(** *** websocket_handler *)

Definition error_event (msg : string) : ws_event :=
  Event (py "error") (Msg (py msg)).

(** Lines 167-171 and 174-178: send the error, close, return. *)
Definition reject (send_json : websocket -> ws_event -> option exc)
    (websock : websocket) (msg : string) : outcome * list action :=
  let ev := error_event msg in
  match send_json websock ev with
  | None => (Done, [SendJson websock ev None; Close websock])
  | Some e => (Raised e, [SendJson websock ev (Some e)])
  end.

(** The handler from [websock.prepare] up to its first suspension in
    the [async for] loop ([Pending]) or to an early [return]. *)
Definition websocket_handler (send_json : websocket -> ws_event -> option exc)
    (websock : websocket) (rq : request) (a : app)
    : outcome * app * list action :=
  match query_get (query rq) (py "email") with
  | None =>
      let (o, tr) := reject send_json websock "email should be defined" in
      (o, a, tr)
  | Some email =>
      if bool_decide (is_Some (_ws_conn a !! email)) then
        let (o, tr) := reject send_json websock "subscriber already exists" in
        (o, a, tr)
      else
        (Pending,
         with_registry a (<[email := websock]> (_ws_conn a))
                       ((websock, email) :: listening a),
         [])
  end.

(** [del d[key]] *)
Definition delitem (d : gmap str websocket) (key : str)
    : result (gmap str websocket) :=
  match d !! key with
  | Some _ => Return (delete key d)
  | None => Raise (KeyError key)
  end.

(** The [finally] clause and what follows, run when the loop of the
    handler that registered [email] for [websock] ends. *)
Definition websocket_handler_finally (why : leave) (websock : websocket)
    (email : str) (a : app) : outcome * app :=
  let rest :=
    List.filter (fun h => negb (bool_decide (h = (websock, email))))
                (listening a) in
  match delitem (_ws_conn a) email with
  | Return reg =>
      (match why with Failed e => Raised e | _ => Done end,
       with_registry a reg rest)
  | Raise e => (Raised e, with_registry a (_ws_conn a) rest)
  end.

(** One atomic stretch of some [websocket_handler] coroutine. *)
Inductive step : app -> app -> Prop :=
| step_subscribe send_json websock rq a :
    step a (websocket_handler send_json websock rq a).1.2
| step_close why websock email a :
    In (websock, email) (listening a) ->
    step a (websocket_handler_finally why websock email a).2.

(** The states of a run that starts as [__init__] leaves the object. *)
Inductive reachable : app -> Prop :=
| reach_init domains port : reachable (App ∅ domains port [])
| reach_step a a' : reachable a -> step a a' -> reachable a'.

(** The connections that are live for an identity. *)
Definition live (a : app) (email : str) : list websocket :=
  List.map fst
    (List.filter (fun h => bool_decide (h.2 = email)) (listening a)).

(** *** auth_handler *)

(** Line 193: [rcpt.split('<')[1].split('>')[0].split('@')[1]] *)
Definition rcpt_domain (rcpt : str) : result str :=
  bind (getitem (Str.split (chr "<") rcpt) 1) (fun s1 =>
  bind (getitem (Str.split (chr ">") s1) 0) (fun s2 =>
  getitem (Str.split (chr "@") s2) 1)).

Definition auth_handler (rq : request) (a : app) : result response * app :=
  let rcpt := headers_get rq (py "Auth-SMTP-To") [] in
  let r :=
    bind (rcpt_domain rcpt) (fun rcpt =>
    let check_passed :=
      List.filter (fun x => bool_decide (x = rcpt)) (_allow_domains a) in
    match check_passed with
    | [] =>
        Return (Response 200 [(py "Auth-Status", py "FORBIDDEN");
                              (py "Auth-Wait", py "0")])
    | _ :: _ =>
        bind (headers_lookup (req_headers rq) (py "Host")) (fun host =>
        Return (Response 200 [(py "Auth-Status", py "OK");
                              (py "Auth-Server", host);
                              (py "Auth-Port", str_of_int (_smtp_port a))]))
    end) in
  (r, a).

End Application.

(** ** The in-flight task list and the end of the handlers *)

#[global] Instance field_eq_dec : EqDecision field.
Proof. solve_decision. Defined.

#[global] Instance payload_eq_dec : EqDecision payload.
Proof. solve_decision. Defined.

#[global] Instance future_eq_dec : EqDecision future.
Proof. solve_decision. Defined.

(** [l.remove(x)]: delete the first element equal to [x]; [ValueError]
    when there is none. *)
Fixpoint list_remove {A} `{EqDecision A} (x : A) (l : list A)
    : result (list A) :=
  match l with
  | [] => Raise (Exception (py "ValueError"))
  | y :: l' =>
      if decide (y = x) then Return l'
      else match list_remove x l' with
           | Return r => Return (y :: r)
           | Raise e => Raise e
           end
  end.

(** The callback installed by [fut.add_done_callback(self._app_tasks.remove)],
    run when the future [fut] is done. *)
Definition done_callback (fut : future) (_app_tasks : list future)
    : result (list future) :=
  list_remove fut _app_tasks.

(** The loops of the given handlers end one after the other, each
    running its [finally] clause: the outcomes of the handlers, in that
    order, and the state they leave. *)
Fixpoint close_handlers (why : leave) (hs : list (websocket * str))
    (a : Application.app) : list outcome * Application.app :=
  match hs with
  | [] => ([], a)
  | (w, email) :: hs' =>
      let (o, a1) := Application.websocket_handler_finally why w email a in
      let (os, a') := close_handlers why hs' a1 in
      (o :: os, a')
  end.

(** * Vocabulary of the statements *)

(** A string with nothing to strip on the left, and on the right. *)
Definition starts_clean (p : N -> bool) (s : str) : Prop :=
  match s with
  | [] => True
  | c :: _ => p c = false
  end.

Definition ends_clean (p : N -> bool) (s : str) : Prop :=
  starts_clean p (rev s).

(** [part] is the first element of [parts] whose content type is
    ['text/plain']. *)
Definition first_text_plain (parts : list message) (part : message) : Prop :=
  exists pre post,
    parts = pre ++ part :: post
    /\ Forall (fun x => get_content_type x <> py "text/plain") pre
    /\ get_content_type part = py "text/plain".




(** ** Reading a trace *)

Definition is_insert (a : action) : bool :=
  match a with InsertOne _ _ => true | _ => false end.

Definition is_send (a : action) : bool :=
  match a with SendJson _ _ _ => true | _ => false end.

(** The two actions of the notification step. *)
Definition is_notify (a : action) : bool :=
  match a with WsGet _ _ | SendJson _ _ _ => true | _ => false end.

Definition insert_attempts (tr : list action) : nat :=
  length (List.filter is_insert tr).

Definition send_attempts (tr : list action) : nat :=
  length (List.filter is_send tr).

(** The waits of a trace, in order. *)
Definition waits (tr : list action) : list Z :=
  flat_map (fun a => match a with Sleep n => [n] | _ => [] end) tr.

(** One failed attempt with error [e], followed by a wait of [n] seconds. *)
Definition failed_attempt (p : payload) (e : exc) (n : Z) : list action :=
  [InsertOne p (Some e); LogError (LogExc e); LogError (LogPayload p);
   LogError (LogRetry n); Sleep n].

(** The wait after the [k]-th failed attempt, counting from 0. *)
Definition backoff (k : nat) : Z := (60 * 2 ^ Z.of_nat k)%Z.

Definition failed_attempts (insert_one : nat -> option exc) (p : payload)
    (ks : list nat) : list action :=
  flat_map (fun k => match insert_one k with
                     | Some e => failed_attempt p e (backoff k)
                     | None => []
                     end) ks.

(** [n] failed attempts with their waits, then the insert that succeeds. *)
Definition retry_trace (insert_one : nat -> option exc) (p : payload)
    (n : nat) : list action :=
  failed_attempts insert_one p (seq 0 n) ++ [InsertOne p None].

(** ** The subscription registry *)

(** Why a subscribe request is turned away, and the text sent for it. *)
Inductive reason : Type :=
| MissingIdentity
| AlreadySubscribed.

Definition reason_msg (r : reason) : string :=
  match r with
  | MissingIdentity => "email should be defined"
  | AlreadySubscribed => "subscriber already exists"
  end.

(** The request carries no [email] parameter; or it carries one that has
    an entry in the registry. *)
Definition rejected (rq : request) (a : Application.app) (r : reason) : Prop :=
  match r with
  | MissingIdentity => query_get (query rq) (py "email") = None
  | AlreadySubscribed =>
      exists email, query_get (query rq) (py "email") = Some email
                    /\ is_Some (Application._ws_conn a !! email)
  end.

(** The registry and the listening handlers tell the same story, and no
    two listening handlers share an identity. *)
Definition registry_inv (a : Application.app) : Prop :=
  NoDup (List.map snd (Application.listening a))
  /\ forall email w,
       Application._ws_conn a !! email = Some w
       <-> In (w, email) (Application.listening a).

(** ** Recipient headers *)

(** None of the three delimiters of the extraction occurs in [s]. *)
Definition plain_token (s : str) : Prop :=
  ~ In (chr "<") s /\ ~ In (chr ">") s /\ ~ In (chr "@") s.

(** The header reads [name<local@domain>rest], as in
    [Name <local@domain>]. *)
Definition rcpt_form (h name loc domain rest : str) : Prop :=
  h = name ++ chr "<" :: loc ++ chr "@" :: domain ++ chr ">" :: rest
  /\ ~ In (chr "<") name
  /\ plain_token loc
  /\ plain_token domain.

(** The header has no [<]; or the text that follows its first [<], up to
    the next [<] or [>] or the end, has no [@]. *)
Definition malformed_rcpt (h : str) : Prop :=
  ~ In (chr "<") h
  \/ exists pre mid tail,
       h = pre ++ chr "<" :: mid ++ tail
       /\ ~ In (chr "<") pre
       /\ plain_token mid
       /\ (tail = [] \/ exists c t, tail = c :: t
                                    /\ (c = chr "<" \/ c = chr ">")).

(** The two answers of the authorisation callback. *)
Definition forbidden_response : response :=
  Response 200 [(py "Auth-Status", py "FORBIDDEN"); (py "Auth-Wait", py "0")].

Definition ok_response (host : str) (port : Z) : response :=
  Response 200 [(py "Auth-Status", py "OK"); (py "Auth-Server", host);
                (py "Auth-Port", str_of_int port)].

(** An insert that the store accepted. *)
Definition is_stored (a : action) : bool :=
  match a with InsertOne _ None => true | _ => false end.

(** An action on the websocket [w]: a send of an error event, or a close. *)
Definition error_or_close (w : websocket) (a : action) : Prop :=
  (exists msg r, a = SendJson w (Event (py "error") (Msg msg)) r)
  \/ a = Close w.

(** ** What a scheduled record looks like *)


(** ** Sample inputs *)

(** A part [Content-Type: text/plain] whose body starts with a tab. *)
Definition tab_part : message :=
  Message [] (py "text/plain") (Text (9 :: py "hi")).




(** A plain message; the [Subject] header is missing. *)
Definition plain_message : message :=
  Message [(py "From", py "u@dom"); (py "TO", py "a@x.com")]
          (py "text/plain") (Text (py " hello" ++ [13; 10])).


(** Two behaviours of [as_string]: the message is rendered, or the
    rendering fails as it does for a part with an 8-bit body. *)
Definition renders (m : message) : result str :=
  Return (py "Content-Type: multipart/alternative").

Definition rendering_fails (m : message) : result str :=
  Raise (Exception (py "UnicodeEncodeError")).

(** The record of the end-to-end example. *)
Definition hello_record : payload :=
  {| from := Plain (py "u@dom"); to := Plain (py "a@x.com");
     subject := Plain (py "Hi");
     timestamp := 7; text := Some (py "hello") |}.

(** A store that rejects the first two inserts. *)
Definition fails_twice (k : nat) : option exc :=
  if (k <? 2)%nat then Some (PyMongoError (py "timeout")) else None.

Definition store_up (k : nat) : option exc := None.

(** A websocket on which every send fails. *)
Definition closing_socket (w : websocket) (ev : ws_event) : option exc :=
  Some (Exception (py "ConnectionResetError")).

Definition one_subscriber : gmap str websocket :=
  {[ py "a@x.com" := 0%nat ]}.

(** [GET /ws?email=] : the parameter is present and empty. *)
Definition empty_email_request : request :=
  Request [(py "email", [])] [(py "Host", py "api")].

Definition no_email_request : request :=
  Request [(py "token", py "1")] [(py "Host", py "api")].

Definition email_request : request :=
  Request [(py "email", py "a@x.com")] [(py "Host", py "api")].

Definition fresh_app : Application.app :=
  Application.App ∅ [py "x.com"] 8025 [].

(** Every send goes through. *)
Definition socket_up (w : websocket) (ev : ws_event) : option exc := None.

(** The application after one accepted subscription for [a@x.com]. *)
Definition subscribed_app : Application.app :=
  (Application.websocket_handler socket_up 3 email_request fresh_app).1.2.

(** Relay authorisation requests. *)
Definition auth_request (rcpt : string) : request :=
  Request [] [(py "Host", py "mail.local"); (py "Auth-SMTP-To", py rcpt)].

(** The same without a [Host] header, as HTTP/1.0 allows. *)
Definition auth_request_no_host (rcpt : string) : request :=
  Request [] [(py "Auth-SMTP-To", py rcpt)].

Definition bare_request : request := Request [] [].

(** A store whose second insert is interrupted by something that is not a
    store-level error. *)
Definition cancelled_on_second (k : nat) : option exc :=
  match k with
  | O => Some (PyMongoError (py "timeout"))
  | _ => Some (Exception (py "CancelledError"))
  end.

(** A store that is down for good. *)
Definition store_down (k : nat) : option exc :=
  Some (PyMongoError (py "timeout")).

(** * Properties *)

(** ** Facts about [strip] and [split] *)

Section StripFacts.

Implicit Types (p q : N -> bool) (s : str).

Lemma lstrip_with_clean p s : starts_clean p (Str.lstrip_with p s).
Proof.
  induction s as [|c s IH]; simpl; [exact I|].
  destruct (p c) eqn:Hc; [exact IH | exact Hc].
Qed.

Lemma lstrip_with_id p s : starts_clean p s -> Str.lstrip_with p s = s.
Proof. destruct s as [|c s]; simpl; [reflexivity|]. now intros ->. Qed.

Lemma lstrip_with_suffix p s : exists w, s = w ++ Str.lstrip_with p s.
Proof.
  induction s as [|c s [w IH]]; simpl.
  - now exists [].
  - destruct (p c).
    + exists (c :: w). simpl. now rewrite <- IH.
    + now exists [].
Qed.

Lemma rstrip_with_prefix p s : exists w, s = Str.rstrip_with p s ++ w.
Proof.
  unfold Str.rstrip_with.
  destruct (lstrip_with_suffix p (rev s)) as [w Hw].
  exists (rev w).
  rewrite <- rev_app_distr, <- Hw. symmetry. apply rev_involutive.
Qed.

Lemma rstrip_with_ends p s : ends_clean p (Str.rstrip_with p s).
Proof.
  unfold ends_clean, Str.rstrip_with. rewrite rev_involutive.
  apply lstrip_with_clean.
Qed.

Lemma rstrip_with_id p s : ends_clean p s -> Str.rstrip_with p s = s.
Proof.
  unfold ends_clean, Str.rstrip_with. intros H.
  rewrite lstrip_with_id by exact H. apply rev_involutive.
Qed.

Lemma rstrip_with_starts p q s :
  starts_clean q s -> starts_clean q (Str.rstrip_with p s).
Proof.
  destruct (rstrip_with_prefix p s) as [w Hw].
  destruct (Str.rstrip_with p s) as [|c t]; [intros _; exact I|].
  rewrite Hw. simpl. trivial.
Qed.

Lemma starts_clean_sub p q s :
  (forall c, q c = true -> p c = true) -> starts_clean p s -> starts_clean q s.
Proof.
  intros Hsub. destruct s as [|c s]; simpl; [trivial|].
  intros Hp. destruct (q c) eqn:Hq; [|reflexivity].
  apply Hsub in Hq. congruence.
Qed.

Lemma strip_with_clean p s :
  starts_clean p (Str.strip_with p s) /\ ends_clean p (Str.strip_with p s).
Proof.
  unfold Str.strip_with. split.
  - apply rstrip_with_starts, lstrip_with_clean.
  - apply rstrip_with_ends.
Qed.

(** Stripping a smaller set of characters after a larger one changes
    nothing. *)
Lemma strip_with_sub p q s :
  (forall c, q c = true -> p c = true) ->
  Str.strip_with q (Str.strip_with p s) = Str.strip_with p s.
Proof.
  intros Hsub. destruct (strip_with_clean p s) as [Hl Hr].
  unfold Str.strip_with at 1.
  rewrite lstrip_with_id by (eapply starts_clean_sub; eauto).
  apply rstrip_with_id. unfold ends_clean in *.
  eapply starts_clean_sub; eauto.
Qed.



End StripFacts.

Lemma isspace_lf c : Str.in_chars [10] c = true -> Str.isspace c = true.
Proof.
  unfold Str.in_chars. simpl. rewrite orb_false_r.
  intros H%N.eqb_eq. subst. reflexivity.
Qed.

Lemma isspace_cr c : Str.in_chars [13] c = true -> Str.isspace c = true.
Proof.
  unfold Str.in_chars. simpl. rewrite orb_false_r.
  intros H%N.eqb_eq. subst. reflexivity.
Qed.

(** The four chained calls of [handle_message] amount to one [strip()]. *)
Lemma strip_text_strip s : MessageHandler.strip_text s = Str.strip s.
Proof.
  unfold MessageHandler.strip_text, Str.strip, Str.strip_chars.
  rewrite (strip_with_sub Str.isspace) by exact isspace_lf.
  rewrite (strip_with_sub Str.isspace) by exact isspace_cr.
  apply strip_with_sub. trivial.
Qed.

(** ** handle_message *)



Lemma scan_parts_first parts part :
  first_text_plain parts part ->
  MessageHandler.scan_parts parts = Some (get_payload part).
Proof.
  intros (pre & post & -> & Hpre & Hpart).
  induction Hpre as [|x pre Hx _ IH]; simpl.
  - rewrite bool_decide_eq_true_2 by exact Hpart. reflexivity.
  - rewrite bool_decide_eq_false_2 by exact Hx. exact IH.
Qed.












(** ** process_payload *)

Section PersistFacts.

Variable insert_one : nat -> option exc.
Variable p : payload.

Lemma backoff_double k : (2 * backoff k)%Z = backoff (S k).
Proof.
  unfold backoff. rewrite Nat2Z.inj_succ, Z.pow_succ_r by lia. lia.
Qed.

(** From attempt [a] on, [n] more failures and then a success. *)
Lemma persist_from n : forall fuel a,
  (forall k, (a <= k < a + n)%nat ->
             exists info, insert_one k = Some (PyMongoError info)) ->
  insert_one (a + n)%nat = None ->
  (n < fuel)%nat ->
  MessageHandler.persist insert_one fuel p a (backoff a)
    = (Done, failed_attempts insert_one p (seq a n) ++ [InsertOne p None]).
Proof.
  induction n as [|n IH]; intros fuel a Hfail Hok Hfuel;
    (destruct fuel as [|fuel]; [lia|]); simpl.
  - replace (a + 0)%nat with a in Hok by lia. now rewrite Hok.
  - destruct (Hfail a ltac:(lia)) as [info Ha]. rewrite Ha.
    rewrite backoff_double.
    rewrite (IH fuel (S a)).
    + reflexivity.
    + intros k Hk. apply Hfail. lia.
    + replace (S a + n)%nat with (a + S n)%nat by lia. exact Hok.
    + lia.
Qed.

Lemma persist_never_raises n : forall fuel a s e,
  (forall k, (k < n)%nat ->
             exists info, insert_one k = Some (PyMongoError info)) ->
  insert_one n = None ->
  (a <= n)%nat ->
  (MessageHandler.persist insert_one fuel p a s).1 <> Raised e.
Proof.
  induction fuel as [|fuel IH]; intros a s e Hfail Hok Ha; simpl;
    [discriminate|].
  destruct (Nat.eq_dec a n) as [->|Hne].
  - rewrite Hok. discriminate.
  - destruct (Hfail a ltac:(lia)) as [info Hk]. rewrite Hk.
    specialize (IH (S a) (2 * s)%Z e Hfail Hok ltac:(lia)).
    destruct (MessageHandler.persist insert_one fuel p (S a) (2 * s))
      as [o tr]. exact IH.
Qed.

Lemma failed_attempts_count ks :
  Forall (fun k => exists info, insert_one k = Some (PyMongoError info)) ks ->
  insert_attempts (failed_attempts insert_one p ks) = length ks
  /\ waits (failed_attempts insert_one p ks) = List.map backoff ks.
Proof.
  induction 1 as [|k ks [info Hk] _ [IHa IHw]]; [split; reflexivity|].
  unfold failed_attempts in *. simpl. rewrite Hk. simpl.
  unfold insert_attempts, waits in *. simpl. now rewrite IHa, IHw.
Qed.

(** The loop itself never touches the registry and never sends. *)
Lemma persist_no_notify : forall fuel a s,
  Forall (fun x => is_notify x = false)
         (MessageHandler.persist insert_one fuel p a s).2.
Proof.
  induction fuel as [|fuel IH]; intros a s; simpl; [constructor|].
  destruct (insert_one a) as [e|].
  - specialize (IH (S a) (2 * s)%Z).
    destruct e;
      try (repeat constructor; fail).
    destruct (MessageHandler.persist insert_one fuel p (S a) (2 * s))
      as [o tr].
    simpl in *. repeat (constructor; [reflexivity|]). exact IH.
  - repeat constructor.
Qed.

(** It returns only right after an insert that succeeded. *)
Lemma persist_done_inserted : forall fuel a s tr,
  MessageHandler.persist insert_one fuel p a s = (Done, tr) ->
  exists tr0, tr = tr0 ++ [InsertOne p None].
Proof.
  induction fuel as [|fuel IH]; intros a s tr; simpl; [discriminate|].
  destruct (insert_one a) as [e|].
  - destruct e; try discriminate.
    specialize (IH (S a) (2 * s)%Z).
    destruct (MessageHandler.persist insert_one fuel p (S a) (2 * s))
      as [o tr1].
    intros H. injection H as -> <-.
    destruct (IH tr1 eq_refl) as [tr0 ->].
    eexists. rewrite !app_comm_cons. reflexivity.
  - intros H. injection H as <-. now exists [].
Qed.

End PersistFacts.

Lemma persist_still_pending (insert_one : nat -> option exc) (p : payload) :
  forall fuel a s,
    (forall k, (a <= k < a + fuel)%nat ->
               exists info, insert_one k = Some (PyMongoError info)) ->
    (MessageHandler.persist insert_one fuel p a s).1 = Pending.
Proof.
  induction fuel as [|fuel IH]; intros a s Hfail; simpl; [reflexivity|].
  destruct (Hfail a ltac:(lia)) as [info Ha]. rewrite Ha.
  specialize (IH (S a) (2 * s)%Z).
  destruct (MessageHandler.persist insert_one fuel p (S a) (2 * s))
    as [o tr].
  apply IH. intros k Hk. apply Hfail. lia.
Qed.

Lemma notify_no_insert_no_wait send_json ws p :
  List.filter is_insert (MessageHandler.notify send_json ws p).2 = []
  /\ waits (MessageHandler.notify send_json ws p).2 = [].
Proof.
  unfold MessageHandler.notify.
  destruct (to p) as [key|v k]; [|split; reflexivity].
  destruct (ws !! key); split; reflexivity.
Qed.

(** C1: against a store whose first [n] inserts raise a store-level error
    and whose next insert succeeds, [process_payload], once it is given
    room for more than [n] iterations of its loop, has made exactly
    [n + 1] insert attempts, each failed one followed by the three log
    lines and a wait, the waits being 60, 120, 240, ... seconds
    (60 * 2^k after the k-th failure, without ceiling), has left the loop
    after the attempt that succeeded and gone on to the notification
    step.  However long it is observed, the unit is either still retrying
    or has completed exactly this run: the loop never ends with a
    failure. *)
Theorem persist_retries_until_success
    (insert_one : nat -> option exc)
    (send_json : websocket -> ws_event -> option exc)
    (ws : gmap str websocket) (p : payload) (n fuel : nat) :
  (forall k, (k < n)%nat ->
             exists info, insert_one k = Some (PyMongoError info)) ->
  insert_one n = None ->
  (n < fuel)%nat ->
  let run := MessageHandler.process_payload insert_one send_json ws fuel p in
  run = ((MessageHandler.notify send_json ws p).1,
         retry_trace insert_one p n
           ++ (MessageHandler.notify send_json ws p).2)
  /\ insert_attempts run.2 = S n
  /\ waits run.2 = List.map backoff (seq 0 n)
  /\ forall fuel',
       let run' :=
         MessageHandler.process_payload insert_one send_json ws fuel' p in
       run'.1 = Pending \/ run' = run.
Proof.
  intros Hfail Hok Hfuel run.
  assert (Hall : Forall (fun k => exists info,
                           insert_one k = Some (PyMongoError info))
                        (seq 0 n)).
  { apply List.Forall_forall. intros k Hk%in_seq. apply Hfail. lia. }
  destruct (failed_attempts_count insert_one p _ Hall) as [Hins Hwaits].
  destruct (notify_no_insert_no_wait send_json ws p) as [Hni Hnw].
  assert (Hloop : forall f, (n < f)%nat ->
            MessageHandler.process_payload insert_one send_json ws f p
            = ((MessageHandler.notify send_json ws p).1,
               retry_trace insert_one p n
                 ++ (MessageHandler.notify send_json ws p).2)).
  { intros f Hf. unfold MessageHandler.process_payload.
    change 60%Z with (backoff 0).
    rewrite (persist_from insert_one p n f 0%nat); auto.
    - now destruct (MessageHandler.notify send_json ws p).
    - intros k Hk. apply Hfail. lia. }
  assert (Hrun : run = ((MessageHandler.notify send_json ws p).1,
                        retry_trace insert_one p n
                          ++ (MessageHandler.notify send_json ws p).2))
    by (apply Hloop; exact Hfuel).
  split; [exact Hrun|]. split; [|split].
  - rewrite Hrun. simpl. unfold retry_trace, insert_attempts in *.
    rewrite !List.filter_app, Hni, !List.length_app, Hins, List.length_seq.
    simpl. lia.
  - rewrite Hrun. simpl. unfold retry_trace, waits in *.
    rewrite !flat_map_app, Hwaits, Hnw. simpl. now rewrite !app_nil_r.
  - intros fuel' run'. destruct (Nat.lt_ge_cases n fuel') as [Hlt|Hge].
    + right. unfold run'. rewrite Hrun. now apply Hloop.
    + left. unfold run', MessageHandler.process_payload.
      pose proof (persist_still_pending insert_one p fuel' 0%nat 60%Z) as Hp.
      destruct (MessageHandler.persist insert_one fuel' p 0 60) as [o tr].
      simpl in Hp. rewrite Hp; [reflexivity|].
      intros k Hk. apply Hfail. lia.
Qed.

Lemma persist_retries_until_success_witness :
  let run := MessageHandler.process_payload fails_twice socket_up
               one_subscriber 3 hello_record in
  run = ((MessageHandler.notify socket_up one_subscriber hello_record).1,
         retry_trace fails_twice hello_record 2
           ++ (MessageHandler.notify socket_up one_subscriber
                 hello_record).2)
  /\ insert_attempts run.2 = 3%nat
  /\ waits run.2 = [60; 120]%Z
  /\ forall fuel',
       let run' :=
         MessageHandler.process_payload fails_twice socket_up
           one_subscriber fuel' hello_record in
       run'.1 = Pending \/ run' = run.
Proof.
  apply (persist_retries_until_success fails_twice socket_up one_subscriber
           hello_record 2 3).
  - intros k Hk. exists (py "timeout"). unfold fails_twice.
    destruct (Nat.ltb_spec k 2); [reflexivity | lia].
  - reflexivity.
  - lia.
Defined.

(** C9: in every run of [process_payload], observed for any length of
    time, whatever the store and the websocket do, each action of the
    notification step (the registry lookup and the send) comes after an
    insert of that same record which succeeded; a run without a
    successful insert contains no notification action. *)
Theorem persist_precedes_notify
    (insert_one : nat -> option exc)
    (send_json : websocket -> ws_event -> option exc)
    (ws : gmap str websocket) (fuel : nat) (p : payload)
    (pre post : list action) (a : action) :
  (MessageHandler.process_payload insert_one send_json ws fuel p).2
    = pre ++ a :: post ->
  is_notify a = true ->
  In (InsertOne p None) pre.
Proof.
  unfold MessageHandler.process_payload.
  pose proof (persist_no_notify insert_one p fuel 0%nat 60%Z) as Hnn.
  pose proof (persist_done_inserted insert_one p fuel 0%nat 60%Z) as Hdone.
  destruct (MessageHandler.persist insert_one fuel p 0 60) as [o tr].
  simpl in Hnn.
  assert (Hnot : forall l1 l2,
            tr = l1 ++ a :: l2 -> is_notify a = true -> False).
  { intros l1 l2 -> Ha. apply List.Forall_app in Hnn as [_ Hnn].
    inversion Hnn; congruence. }
  destruct o; simpl; intros Htr Ha;
    try (exfalso; eapply Hnot; eauto; fail).
  destruct (Hdone tr eq_refl) as [tr0 ->].
  destruct (MessageHandler.notify send_json ws p) as [o' tr'].
  simpl in Htr.
  apply app_eq_app in Htr as [l [[Hpre Hl] | [Hpre Hl]]].
  - destruct l as [|x l].
    + rewrite app_nil_r in Hpre. rewrite <- Hpre.
      apply in_or_app. right. now left.
    + simpl in Hl. injection Hl as <- _.
      exfalso. exact (Hnot pre l Hpre Ha).
  - rewrite Hpre. apply in_or_app. left. apply in_or_app. right. now left.
Qed.

Lemma persist_precedes_notify_witness :
  In (InsertOne hello_record None)
     (failed_attempts fails_twice hello_record [0; 1]%nat
        ++ [InsertOne hello_record None]).
Proof.
  apply (persist_precedes_notify fails_twice closing_socket one_subscriber 5
           hello_record
           (failed_attempts fails_twice hello_record [0; 1]%nat
              ++ [InsertOne hello_record None])
           [SendJson 0%nat (Event (py "new_mail") (Mail hello_record))
                     (Some (Exception (py "ConnectionResetError")))]
           (WsGet (py "a@x.com") (Some 0%nat))).
  - vm_compute. reflexivity.
  - reflexivity.
Defined.

(** C2 (as stated) fails: with the record inserted and a subscriber
    registered under its [to], a send that raises makes [process_payload]
    itself end with that exception, not return. *)
Lemma send_failure_counterexample :
  MessageHandler.persist store_up 1 hello_record 0 60
    = (Done, [InsertOne hello_record None])
  /\ to hello_record = Plain (py "a@x.com")
  /\ one_subscriber !! py "a@x.com" = Some 0%nat
  /\ MessageHandler.process_payload store_up closing_socket one_subscriber 1
       hello_record
     = (Raised (Exception (py "ConnectionResetError")),
        [InsertOne hello_record None;
         WsGet (py "a@x.com") (Some 0%nat);
         SendJson 0%nat (Event (py "new_mail") (Mail hello_record))
                  (Some (Exception (py "ConnectionResetError")))])
  /\ (MessageHandler.process_payload store_up closing_socket one_subscriber 1
        hello_record).1 <> Done.
Proof.
  repeat split; try (vm_compute; reflexivity).
  vm_compute. discriminate.
Qed.

Lemma filter_none {A} (f : A -> bool) (l : list A) :
  Forall (fun x => f x = false) l -> List.filter f l = [].
Proof.
  induction 1 as [|x l Hx _ IH]; simpl; [reflexivity|]. now rewrite Hx.
Qed.

Lemma persist_no_send insert_one p fuel a s :
  List.filter is_send (MessageHandler.persist insert_one fuel p a s).2 = [].
Proof.
  apply filter_none.
  eapply List.Forall_impl; [|apply persist_no_notify].
  intros [] H; simpl in *; congruence.
Qed.

(** C2 (as amended): when the insert has succeeded and a websocket is
    registered under the record's [to], a send that raises is not caught:
    [process_payload] ends with that exception.  The send is attempted
    exactly once (nothing is retried), it comes after the successful
    insert, and no further action follows it, so the record stays in the
    store. *)
Theorem send_failure_ends_unit
    (insert_one : nat -> option exc)
    (send_json : websocket -> ws_event -> option exc)
    (ws : gmap str websocket) (fuel : nat) (p : payload) (key : str)
    (w : websocket) (e : exc) (tr : list action) :
  MessageHandler.persist insert_one fuel p 0 60 = (Done, tr) ->
  to p = Plain key ->
  ws !! key = Some w ->
  send_json w (Event (py "new_mail") (Mail p)) = Some e ->
  let run := MessageHandler.process_payload insert_one send_json ws fuel p in
  run = (Raised e,
         tr ++ [WsGet key (Some w);
                SendJson w (Event (py "new_mail") (Mail p)) (Some e)])
  /\ In (InsertOne p None) tr
  /\ send_attempts run.2 = 1%nat.
Proof.
  intros Hp Hkey Hw He run.
  assert (Hrun : run = (Raised e,
                        tr ++ [WsGet key (Some w);
                               SendJson w (Event (py "new_mail") (Mail p))
                                        (Some e)])).
  { unfold run, MessageHandler.process_payload, MessageHandler.notify.
    rewrite Hp, Hkey, Hw, He. reflexivity. }
  split; [exact Hrun|]. split.
  - destruct (persist_done_inserted _ _ _ _ _ _ Hp) as [tr0 ->].
    apply in_or_app. right. now left.
  - rewrite Hrun. unfold send_attempts. simpl.
    rewrite List.filter_app.
    pose proof (persist_no_send insert_one p fuel 0%nat 60%Z) as Hns.
    rewrite Hp in Hns. simpl in Hns. rewrite Hns. reflexivity.
Qed.

Lemma send_failure_ends_unit_witness :
  let run := MessageHandler.process_payload fails_twice closing_socket
               one_subscriber 3 hello_record in
  run = (Raised (Exception (py "ConnectionResetError")),
         retry_trace fails_twice hello_record 2
           ++ [WsGet (py "a@x.com") (Some 0%nat);
               SendJson 0%nat (Event (py "new_mail") (Mail hello_record))
                        (Some (Exception (py "ConnectionResetError")))])
  /\ In (InsertOne hello_record None) (retry_trace fails_twice hello_record 2)
  /\ send_attempts run.2 = 1%nat.
Proof.
  apply (send_failure_ends_unit fails_twice closing_socket one_subscriber 3
           hello_record (py "a@x.com") 0%nat
           (Exception (py "ConnectionResetError"))
           (retry_trace fails_twice hello_record 2)).
  - vm_compute. reflexivity.
  - reflexivity.
  - vm_compute. reflexivity.
  - reflexivity.
Defined.

(** ** websocket_handler *)

(** C6 (as stated) fails: an [email] parameter that is present and empty
    is not turned away; the handler sends nothing, registers the websocket
    under the empty identity and goes on to its receive loop. *)
Lemma empty_identity_counterexample :
  query_get (query empty_email_request) (py "email") = Some []
  /\ Application.websocket_handler socket_up 3 empty_email_request fresh_app
     = (Pending,
        Application.App {[ [] := 3%nat ]} [py "x.com"] 8025 [(3%nat, [])],
        [])
  /\ Application._ws_conn
       (Application.websocket_handler socket_up 3 empty_email_request
          fresh_app).1.2 !! [] = Some 3%nat.
Proof.
  repeat split; vm_compute; reflexivity.
Qed.

(** C6 (as amended): a subscribe request without the [email] parameter
    (MissingIdentity), or with one that already has a registry entry
    (AlreadySubscribed), is turned away: the handler makes exactly one
    send, of the event [{"type": "error", "payload": {"msg": ...}}] with
    the text of that reason, closes the websocket once the send has
    returned, and leaves the registry and the rest of the application
    state as they were. *)
Theorem rejected_subscribe
    (send_json : websocket -> ws_event -> option exc)
    (websock : websocket) (rq : request) (a : Application.app) (r : reason) :
  rejected rq a r ->
  let ev := Event (py "error") (Msg (py (reason_msg r))) in
  Application.websocket_handler send_json websock rq a
    = (match send_json websock ev with None => Done | Some e => Raised e end,
       a,
       SendJson websock ev (send_json websock ev)
         :: match send_json websock ev with
            | None => [Close websock]
            | Some _ => []
            end).
Proof.
  destruct r; simpl.
  - intros Hq. unfold Application.websocket_handler. rewrite Hq.
    unfold Application.reject, Application.error_event.
    now destruct (send_json websock _).
  - intros (email & Hq & Hreg). unfold Application.websocket_handler.
    rewrite Hq, bool_decide_eq_true_2 by exact Hreg.
    unfold Application.reject, Application.error_event.
    now destruct (send_json websock _).
Qed.

Lemma rejected_subscribe_witness :
  Application.websocket_handler socket_up 3 no_email_request fresh_app
    = (Done, fresh_app,
       [SendJson 3%nat
          (Event (py "error") (Msg (py "email should be defined"))) None;
        Close 3%nat]).
Proof.
  exact (rejected_subscribe socket_up 3 no_email_request fresh_app
           MissingIdentity eq_refl).
Defined.

(** ** The registry invariant *)

Section Registry.

Import Application.

Implicit Types (a : app) (l : list (websocket * str)).

Lemma handler_state send_json websock rq a :
  (websocket_handler send_json websock rq a).1.2
    = match query_get (query rq) (py "email") with
      | None => a
      | Some email =>
          if bool_decide (is_Some (_ws_conn a !! email)) then a
          else with_registry a (<[email := websock]> (_ws_conn a))
                             ((websock, email) :: listening a)
      end.
Proof.
  unfold websocket_handler.
  destruct (query_get (query rq) (py "email")) as [email|].
  - destruct (bool_decide (is_Some (_ws_conn a !! email)));
      [|reflexivity].
    now destruct (reject send_json websock _).
  - now destruct (reject send_json websock _).
Qed.

Lemma filter_other_identity l (email : str) :
  ~ In email (List.map snd l) ->
  List.filter (fun h => bool_decide (h.2 = email)) l = [].
Proof.
  induction l as [|[w e] l IH]; simpl; [reflexivity|].
  intros Hn. rewrite bool_decide_eq_false_2 by (intros ->; tauto).
  apply IH. tauto.
Qed.

Lemma nodup_live l (email : str) :
  NoDup (List.map snd l) ->
  (length (List.filter (fun h => bool_decide (h.2 = email)) l) <= 1)%nat
  /\ forall w,
       In (w, email) l
       <-> List.map fst
             (List.filter (fun h => bool_decide (h.2 = email)) l) = [w].
Proof.
  induction l as [|[w0 e0] l IH]; simpl; intros Hnd.
  - split; [lia|]. intros w. split; [tauto | discriminate].
  - apply NoDup_cons in Hnd as [Hfresh Hnd].
    destruct (IH Hnd) as [IHlen IHin].
    destruct (decide (e0 = email)) as [->|Hne].
    + rewrite bool_decide_eq_true_2 by reflexivity.
      rewrite (filter_other_identity l email)
        by (rewrite <- list_elem_of_In; exact Hfresh).
      simpl. split; [lia|]. intros w. split.
      * intros [[= ->]|Hin]; [reflexivity|].
        exfalso. apply Hfresh. rewrite list_elem_of_In.
        apply (in_map snd) in Hin. exact Hin.
      * intros [= ->]. now left.
    + rewrite bool_decide_eq_false_2 by exact Hne.
      split; [exact IHlen|]. intros w. rewrite <- IHin. split.
      * intros [[= _ ?]|Hin]; [congruence | exact Hin].
      * intros Hin. now right.
Qed.

Lemma nodup_filter_snd (f : websocket * str -> bool) l :
  NoDup (List.map snd l) -> NoDup (List.map snd (List.filter f l)).
Proof.
  induction l as [|h l IH]; simpl; intros Hnd; [exact Hnd|].
  apply NoDup_cons in Hnd as [Hfresh Hnd].
  destruct (f h); simpl; [|auto].
  apply NoDup_cons. split; [|auto].
  rewrite list_elem_of_In in *. intros Hin. apply Hfresh.
  apply in_map_iff in Hin as (x & Hx & Hin%List.filter_In).
  apply in_map_iff. exists x. tauto.
Qed.

Lemma registry_inv_init domains port : registry_inv (App ∅ domains port []).
Proof.
  split; simpl; [constructor|].
  intros email w. rewrite lookup_empty. split; [discriminate | tauto].
Qed.

Lemma registry_inv_subscribe send_json websock rq a :
  registry_inv a ->
  registry_inv (websocket_handler send_json websock rq a).1.2.
Proof.
  intros [Hnd Hreg]. rewrite handler_state.
  destruct (query_get (query rq) (py "email")) as [email|]; [|now split].
  destruct (bool_decide_reflect (is_Some (_ws_conn a !! email)))
    as [Htaken|Hfree]; [now split|].
  apply eq_None_not_Some in Hfree.
  split; simpl.
  - apply NoDup_cons. split; [|exact Hnd].
    rewrite list_elem_of_In. intros Hin.
    apply in_map_iff in Hin as ([w e] & He & Hin). simpl in He. subst e.
    apply Hreg in Hin. congruence.
  - intros e w. destruct (decide (email = e)) as [<-|Hne].
    + rewrite lookup_insert_eq. split.
      * intros [= ->]. now left.
      * intros [[= ->]|Hin]; [reflexivity|].
        apply Hreg in Hin. congruence.
    + rewrite lookup_insert_ne by exact Hne. rewrite Hreg. split.
      * intros Hin. now right.
      * intros [[= _ ?]|Hin]; [congruence | exact Hin].
Qed.

Lemma delitem_own websock email a :
  registry_inv a ->
  In (websock, email) (listening a) ->
  delitem (_ws_conn a) email = Return (delete email (_ws_conn a)).
Proof.
  intros [_ Hreg] Hin. apply Hreg in Hin. unfold delitem. now rewrite Hin.
Qed.

Lemma registry_inv_close why websock email a :
  registry_inv a ->
  In (websock, email) (listening a) ->
  registry_inv (websocket_handler_finally why websock email a).2.
Proof.
  intros Hinv Hin. pose proof Hinv as [Hnd Hreg].
  unfold websocket_handler_finally.
  rewrite (delitem_own websock email a Hinv Hin). simpl.
  split; simpl.
  - apply nodup_filter_snd, Hnd.
  - intros e w. rewrite List.filter_In, negb_true_iff, bool_decide_eq_false.
    destruct (decide (email = e)) as [<-|Hne].
    + rewrite lookup_delete_eq. split; [discriminate|].
      intros [Hw Hdiff]. exfalso. apply Hdiff.
      apply Hreg in Hw. apply Hreg in Hin. congruence.
    + rewrite lookup_delete_ne by exact Hne. rewrite Hreg.
      split; [|tauto]. intros Hw. split; [exact Hw|]. congruence.
Qed.

Lemma reachable_registry_inv a : reachable a -> registry_inv a.
Proof.
  induction 1 as [domains port | a a' _ IH Hstep].
  - apply registry_inv_init.
  - destruct Hstep as [send_json websock rq a | why websock email a Hin].
    + now apply registry_inv_subscribe.
    + now apply registry_inv_close.
Qed.

End Registry.

(** C7: in every state the application can reach through subscribe
    requests and connection closes, each identity has at most one live
    connection, and the registry maps the identity to exactly that one.
    A subscribe request for an identity that has an entry leaves the
    whole state untouched.  When the connection registered for an identity
    ends, for whatever reason, the [del] of the [finally] clause finds the
    entry (it never raises [KeyError]), removes it, and leaves every other
    identity's entry and live connection as they were. *)
Theorem registry_at_most_one (a : Application.app) :
  Application.reachable a ->
  (forall email, (length (Application.live a email) <= 1)%nat)
  /\ (forall email w,
        Application._ws_conn a !! email = Some w
        <-> Application.live a email = [w])
  /\ (forall send_json websock rq email,
        query_get (query rq) (py "email") = Some email ->
        is_Some (Application._ws_conn a !! email) ->
        (Application.websocket_handler send_json websock rq a).1.2 = a)
  /\ (forall why websock email,
        In (websock, email) (Application.listening a) ->
        let a' :=
          (Application.websocket_handler_finally why websock email a).2 in
        Application.delitem (Application._ws_conn a) email
          = Return (Application._ws_conn a')
        /\ Application._ws_conn a' !! email = None
        /\ Application.live a' email = []
        /\ (forall other, other <> email ->
              Application._ws_conn a' !! other
                = Application._ws_conn a !! other)
        /\ (forall email', (length (Application.live a' email') <= 1)%nat)).
Proof.
  intros Hreach. pose proof (reachable_registry_inv a Hreach) as Hinv.
  assert (Hlive : forall b, registry_inv b ->
            (forall email, (length (Application.live b email) <= 1)%nat)
            /\ (forall email w,
                  Application._ws_conn b !! email = Some w
                  <-> Application.live b email = [w])).
  { intros b [Hnd Hreg]. split.
    - intros email. unfold Application.live. rewrite List.length_map.
      apply (nodup_live _ email Hnd).
    - intros email w. rewrite Hreg. apply (nodup_live _ email Hnd). }
  destruct (Hlive a Hinv) as [Hone Hagree].
  split; [exact Hone|]. split; [exact Hagree|]. split.
  - intros send_json websock rq email Hq Htaken.
    rewrite handler_state, Hq.
    now rewrite bool_decide_eq_true_2 by exact Htaken.
  - intros why websock email Hin a'.
    pose proof (registry_inv_close why websock email a Hinv Hin) as Hinv'.
    fold a' in Hinv'. destruct (Hlive a' Hinv') as [Hone' Hagree'].
    assert (Hreg' : Application._ws_conn a'
                    = delete email (Application._ws_conn a)).
    { unfold a', Application.websocket_handler_finally.
      now rewrite (delitem_own websock email a Hinv Hin). }
    assert (Hgone : Application._ws_conn a' !! email = None).
    { rewrite Hreg'. apply lookup_delete_eq. }
    split; [|split; [exact Hgone|split; [|split; [|exact Hone']]]].
    + rewrite Hreg'. apply (delitem_own websock email a Hinv Hin).
    + specialize (Hone' email).
      destruct (Application.live a' email) as [|w [|w' l]] eqn:El;
        [reflexivity | | simpl in Hone'; lia].
      apply Hagree' in El. congruence.
    + intros other Hne. rewrite Hreg'. now apply lookup_delete_ne.
Qed.

Lemma registry_at_most_one_witness :
  (length (Application.live subscribed_app (py "a@x.com")) <= 1)%nat.
Proof.
  refine (proj1 (registry_at_most_one subscribed_app _) (py "a@x.com")).
  apply (Application.reach_step fresh_app).
  - apply Application.reach_init.
  - apply (Application.step_subscribe socket_up 3 email_request fresh_app).
Defined.

(** ** auth_handler *)

Section SplitFacts.

Variable sep : N.

Lemma split_no_sep s : ~ In sep s -> Str.split sep s = [s].
Proof.
  induction s as [|c s IH]; simpl; [reflexivity|]. intros Hn.
  destruct (N.eqb_spec c sep) as [->|_]; [tauto|].
  rewrite IH by tauto. reflexivity.
Qed.

Lemma split_at_sep pre rest :
  ~ In sep pre ->
  Str.split sep (pre ++ sep :: rest) = pre :: Str.split sep rest.
Proof.
  induction pre as [|c pre IH]; simpl; intros Hn.
  - now rewrite N.eqb_refl.
  - destruct (N.eqb_spec c sep) as [->|_]; [tauto|].
    rewrite IH by tauto. reflexivity.
Qed.

Lemma split_nonempty s : exists v ws, Str.split sep s = v :: ws.
Proof.
  destruct s as [|c s]; simpl; [now eexists _, _|].
  destruct (c =? sep); [now eexists _, _|].
  destruct (Str.split sep s); now eexists _, _.
Qed.

(** The first piece starts with any separator-free prefix. *)
Lemma split_prefix u t :
  ~ In sep u -> exists v ws, Str.split sep (u ++ t) = (u ++ v) :: ws.
Proof.
  induction u as [|c u IH]; simpl; intros Hn.
  - apply split_nonempty.
  - destruct (N.eqb_spec c sep) as [->|_]; [tauto|].
    destruct IH as (v & ws & ->); [tauto|]. now exists v, ws.
Qed.

Lemma split_prefix_cons u c t :
  ~ In sep u -> c <> sep ->
  exists v ws, Str.split sep (u ++ c :: t) = (u ++ c :: v) :: ws.
Proof.
  intros Hu Hc.
  destruct (split_prefix (u ++ [c]) t) as (v & ws & E).
  - intros [H|[H|[]]]%in_app_or; [tauto | congruence].
  - rewrite <- !app_assoc in E. simpl in E. now exists v, ws.
Qed.

End SplitFacts.

Lemma rcpt_domain_form h name loc domain rest :
  rcpt_form h name loc domain rest ->
  Application.rcpt_domain h = Return domain.
Proof.
  intros (-> & Hname & (Hl1 & Hl2 & Hl3) & (Hd1 & Hd2 & Hd3)).
  unfold Application.rcpt_domain. rewrite split_at_sep by exact Hname.
  assert (Hu : forall c, ~ In c loc -> ~ In c domain -> c <> chr "@" ->
                         ~ In c (loc ++ chr "@" :: domain)).
  { intros c H1 H2 H3 [H|[H|H]]%in_app_or; [tauto | congruence | tauto]. }
  destruct (split_prefix_cons (chr "<") (loc ++ chr "@" :: domain)
              (chr ">") rest) as (v & ws & E).
  { apply Hu; auto; vm_compute; discriminate. }
  { vm_compute. discriminate. }
  rewrite <- app_assoc in E. simpl in E. rewrite E. simpl.
  rewrite split_at_sep by (apply Hu; auto; vm_compute; discriminate).
  simpl. rewrite split_at_sep by exact Hl3.
  rewrite split_no_sep by exact Hd3. reflexivity.
Qed.

Lemma rcpt_domain_malformed h :
  malformed_rcpt h -> Application.rcpt_domain h = Raise IndexError.
Proof.
  unfold Application.rcpt_domain.
  intros [Hno | (pre & mid & tail & -> & Hpre & (Hm1 & Hm2 & Hm3) & Htail)].
  - rewrite split_no_sep by exact Hno. reflexivity.
  - rewrite split_at_sep by exact Hpre.
    assert (Hmid : bind (getitem (Str.split (chr ">") mid) 0) (fun s2 =>
                   getitem (Str.split (chr "@") s2) 1)
                   = Raise IndexError).
    { rewrite split_no_sep by exact Hm2. simpl.
      rewrite split_no_sep by exact Hm3. reflexivity. }
    destruct Htail as [-> | (c & t & -> & [-> | ->])].
    + rewrite app_nil_r, split_no_sep by exact Hm1. exact Hmid.
    + rewrite split_at_sep by exact Hm1. exact Hmid.
    + destruct (split_prefix_cons (chr "<") mid (chr ">") t)
        as (v & ws & E); [exact Hm1 | vm_compute; discriminate |].
      rewrite E. simpl. rewrite split_at_sep by exact Hm2. simpl.
      rewrite split_no_sep by exact Hm3. reflexivity.
Qed.

Lemma filter_eq_nil (rcpt : str) (domains : list str) :
  ~ In rcpt domains ->
  List.filter (fun x => bool_decide (x = rcpt)) domains = [].
Proof.
  induction domains as [|d ds IH]; simpl; [reflexivity|]. intros Hn.
  rewrite bool_decide_eq_false_2 by (intros ->; tauto). apply IH. tauto.
Qed.

Lemma filter_eq_cons (rcpt : str) (domains : list str) :
  In rcpt domains ->
  exists d ds, List.filter (fun x => bool_decide (x = rcpt)) domains = d :: ds.
Proof.
  induction domains as [|d ds IH]; simpl; [tauto|]. intros [->|Hin].
  - rewrite bool_decide_eq_true_2 by reflexivity. now eexists _, _.
  - destruct (bool_decide (d = rcpt)); [now eexists _, _ | auto].
Qed.

Lemma get_header_absent hs name default :
  (forall kv, In kv hs -> Str.lower kv.1 <> Str.lower name) ->
  get_header hs name default = default.
Proof.
  induction hs as [|[k0 v] hs IH]; simpl; [reflexivity|]. intros Hn.
  rewrite bool_decide_eq_false_2 by (apply (Hn (k0, v)); now left).
  apply IH. intros kv Hin. apply Hn. now right.
Qed.

(** C8 (as stated) fails: for a request without a [Host] header whose
    recipient domain is allowed, the handler raises [KeyError] while it
    builds the OK answer. *)
Lemma auth_without_host_counterexample :
  rcpt_form (headers_get (auth_request_no_host "Name <u@x.com>")
                         (py "Auth-SMTP-To") [])
            (py "Name ") (py "u") (py "x.com") []
  /\ In (py "x.com") (Application._allow_domains fresh_app)
  /\ Application.auth_handler (auth_request_no_host "Name <u@x.com>") fresh_app
     = (Raise (KeyError (py "Host")), fresh_app).
Proof.
  split; [|split].
  - split; [reflexivity|].
    repeat split; vm_compute; intros H;
      repeat (destruct H as [H|H]; [discriminate|]); exact H.
  - now left.
  - vm_compute. reflexivity.
Qed.

(** C8 (as amended): when the recipient header reads
    [Name <local@domain>], the handler extracts [domain].  If [domain] is
    not in the allow-list it answers FORBIDDEN; if it is, and the request
    has a [Host] header, it answers OK with that host and the configured
    SMTP port.  In both cases the application state is returned as it
    was. *)
Theorem auth_handler_checks_domain
    (rq : request) (a : Application.app) (name loc domain rest : str) :
  rcpt_form (headers_get rq (py "Auth-SMTP-To") []) name loc domain rest ->
  (~ In domain (Application._allow_domains a) ->
   Application.auth_handler rq a = (Return forbidden_response, a))
  /\ (forall host,
        In domain (Application._allow_domains a) ->
        headers_lookup (req_headers rq) (py "Host") = Return host ->
        Application.auth_handler rq a
          = (Return (ok_response host (Application._smtp_port a)), a)).
Proof.
  intros Hform. unfold Application.auth_handler. split.
  - intros Hno. rewrite (rcpt_domain_form _ _ _ _ _ Hform). simpl.
    now rewrite filter_eq_nil by exact Hno.
  - intros host Hin Hhost. rewrite (rcpt_domain_form _ _ _ _ _ Hform). simpl.
    destruct (filter_eq_cons _ _ Hin) as (d & ds & ->).
    rewrite Hhost. reflexivity.
Qed.

Lemma auth_handler_checks_domain_witness :
  Application.auth_handler (auth_request "Name <u@x.com>") fresh_app
    = (Return (ok_response (py "mail.local") 8025), fresh_app).
Proof.
  refine (proj2 (auth_handler_checks_domain (auth_request "Name <u@x.com>")
                   fresh_app (py "Name ") (py "u") (py "x.com") [] _)
                (py "mail.local") _ eq_refl).
  - split; [reflexivity|].
    repeat split; vm_compute; intros H;
      repeat (destruct H as [H|H]; [discriminate|]); exact H.
  - now left.
Defined.

(** C10: when the [Auth-SMTP-To] header is missing, or its value has no
    [<], or the text after its first [<] (up to the next [<] or [>] or the
    end) has no [@], the handler raises [IndexError] while it extracts the
    domain; it returns no response, FORBIDDEN or other. *)
Theorem auth_handler_index_error (rq : request) (a : Application.app) :
  (forall kv, In kv (req_headers rq) ->
              Str.lower kv.1 <> Str.lower (py "Auth-SMTP-To"))
  \/ malformed_rcpt (headers_get rq (py "Auth-SMTP-To") []) ->
  Application.auth_handler rq a = (Raise IndexError, a).
Proof.
  intros H. unfold Application.auth_handler.
  rewrite rcpt_domain_malformed; [reflexivity|].
  destruct H as [Habsent | Hbad]; [|exact Hbad].
  unfold headers_get. rewrite get_header_absent by exact Habsent.
  left. simpl. tauto.
Qed.

Lemma auth_handler_index_error_witness :
  Application.auth_handler bare_request fresh_app
    = (Raise IndexError, fresh_app).
Proof.
  apply (auth_handler_index_error bare_request fresh_app).
  left. intros kv [].
Defined.


(** * Further properties of the code *)

(** ** Trimming *)

Lemma lstrip_with_split (p : N -> bool) (s : str) :
  exists w, s = w ++ Str.lstrip_with p s /\ Forall (fun c => p c = true) w.
Proof.
  induction s as [|c s (w & IH & Hw)]; simpl.
  - exists []. split; [reflexivity | constructor].
  - destruct (p c) eqn:Hc.
    + exists (c :: w). split; [simpl; now rewrite <- IH | now constructor].
    + exists []. split; [reflexivity | constructor].
Qed.

Lemma rstrip_with_split (p : N -> bool) (s : str) :
  exists w, s = Str.rstrip_with p s ++ w /\ Forall (fun c => p c = true) w.
Proof.
  unfold Str.rstrip_with.
  destruct (lstrip_with_split p (rev s)) as (w & Hs & Hw).
  exists (rev w). split.
  - rewrite <- rev_app_distr, <- Hs. symmetry. apply rev_involutive.
  - apply List.Forall_forall. intros c Hc%in_rev.
    rewrite List.Forall_forall in Hw. now apply Hw.
Qed.

(** X1: trimming is idempotent: applying the chain of four [strip] calls
    of [handle_message] to its own result changes nothing. *)
Theorem strip_text_idempotent (s : str) :
  MessageHandler.strip_text (MessageHandler.strip_text s)
    = MessageHandler.strip_text s.
Proof.
  rewrite !strip_text_strip. unfold Str.strip. apply strip_with_sub. trivial.
Qed.

(** X2: trimming only removes whitespace from the two ends: the original
    string is a run of whitespace, then the trimmed text untouched, then a
    run of whitespace; and the trimmed text neither starts nor ends with a
    whitespace character. *)
Theorem strip_text_keeps_middle (s : str) :
  exists pre post,
    s = pre ++ MessageHandler.strip_text s ++ post
    /\ Forall (fun c => Str.isspace c = true) pre
    /\ Forall (fun c => Str.isspace c = true) post
    /\ starts_clean Str.isspace (MessageHandler.strip_text s)
    /\ ends_clean Str.isspace (MessageHandler.strip_text s).
Proof.
  rewrite strip_text_strip. unfold Str.strip, Str.strip_with.
  destruct (lstrip_with_split Str.isspace s) as (pre & Hs & Hpre).
  destruct (rstrip_with_split Str.isspace (Str.lstrip_with Str.isspace s))
    as (post & Hl & Hpost).
  exists pre, post. split; [|split; [exact Hpre|split; [exact Hpost|]]].
  - rewrite <- Hl. exact Hs.
  - apply (strip_with_clean Str.isspace s).
Qed.

(** ** What handle_message can do *)



Lemma scan_parts_skip (pre : list message) (part : message)
    (post : list message) :
  Forall (fun x => get_content_type x <> py "text/plain") pre ->
  get_content_type part = py "text/plain" ->
  MessageHandler.scan_parts (pre ++ part :: post) = Some (get_payload part).
Proof.
  intros Hpre Hpart. apply scan_parts_first. now exists pre, post.
Qed.

(** X4: in a multipart message only the first ['text/plain'] part counts:
    the parts before it and all the parts after it, further ['text/plain']
    parts included, have no influence on what [handle_message] does. *)
Theorem only_first_plain_part_counts
    (as_string : message -> result str)
    (now : datetime) (hs : list (str * str)) (ct : str)
    (pre post : list message) (part : message) (tasks : list future) :
  Forall (fun x => get_content_type x <> py "text/plain") pre ->
  get_content_type part = py "text/plain" ->
  MessageHandler.handle_message as_string now
      (Message hs ct (Multipart (pre ++ part :: post))) tasks
    = MessageHandler.handle_message as_string now
        (Message hs ct (Multipart [part])) tasks.
Proof.
  intros Hpre Hpart. unfold MessageHandler.handle_message. simpl.
  rewrite (scan_parts_skip pre part post Hpre Hpart).
  rewrite bool_decide_eq_true_2 by exact Hpart. reflexivity.
Qed.

Lemma only_first_plain_part_counts_witness :
  MessageHandler.handle_message rendering_fails 7
      (Message [] (py "multipart/mixed")
         (Multipart ([Message [] (py "text/html") (Text (py "<p>hi</p>"))]
                       ++ tab_part
                       :: [Message [] (py "text/plain") (Text (py "late"))])))
      []
    = MessageHandler.handle_message rendering_fails 7
        (Message [] (py "multipart/mixed") (Multipart [tab_part])) [].
Proof.
  apply (only_first_plain_part_counts rendering_fails 7 []
           (py "multipart/mixed")
           [Message [] (py "text/html") (Text (py "<p>hi</p>"))]
           [Message [] (py "text/plain") (Text (py "late"))] tab_part []).
  - constructor; [|constructor]. vm_compute. discriminate.
  - reflexivity.
Defined.

(** ** The in-flight task list *)

Lemma list_remove_in {A} `{EqDecision A} (x : A) (l : list A) :
  In x l ->
  exists l1 l2,
    l = l1 ++ x :: l2 /\ ~ In x l1 /\ list_remove x l = Return (l1 ++ l2).
Proof.
  induction l as [|y l IH]; simpl; [tauto|]. intros Hin.
  destruct (decide (y = x)) as [->|Hne].
  - exists [], l. repeat split; tauto.
  - destruct IH as (l1 & l2 & -> & Hl1 & ->);
      [destruct Hin; [congruence | assumption]|].
    exists (y :: l1), l2. split; [reflexivity|]. split; [|reflexivity].
    intros [?|?]; [congruence | tauto].
Qed.

Lemma list_remove_not_in {A} `{EqDecision A} (x : A) (l : list A) :
  ~ In x l -> list_remove x l = Raise (Exception (py "ValueError")).
Proof.
  induction l as [|y l IH]; simpl; [reflexivity|]. intros Hn.
  destruct (decide (y = x)) as [->|Hne]; [tauto|].
  rewrite IH by tauto. reflexivity.
Qed.

(** X5: the done-callback of a future removes exactly that future from the
    task list: when the future is in the list, the call succeeds, takes
    out its first occurrence and keeps every other task in place and in
    order; when it is not, the call raises [ValueError] (so a callback
    that ran twice for one future would fail the second time). *)
Theorem done_callback_removes_one (fut : future) (tasks : list future) :
  (In fut tasks ->
   exists before after,
     tasks = before ++ fut :: after
     /\ ~ In fut before
     /\ done_callback fut tasks = Return (before ++ after))
  /\ (~ In fut tasks ->
      done_callback fut tasks = Raise (Exception (py "ValueError"))).
Proof.
  split.
  - apply list_remove_in.
  - apply list_remove_not_in.
Qed.

(** X6: task accounting round trip: when [handle_message] has scheduled a
    future that was not yet pending, the done-callback of that future puts
    the task list back exactly as it was before the message arrived. *)
Theorem schedule_then_done_restores
    (as_string : message -> result str)
    (now : datetime) (m : message) (tasks : list future) (p : payload) :
  MessageHandler.handle_message as_string now m tasks
    = (Return tt, tasks ++ [ProcessPayload p], []) ->
  ~ In (ProcessPayload p) tasks ->
  done_callback (ProcessPayload p)
                (MessageHandler.handle_message as_string now m tasks).1.2
    = Return tasks.
Proof.
  intros -> Hfresh. simpl. unfold done_callback.
  destruct (list_remove_in (ProcessPayload p) (tasks ++ [ProcessPayload p]))
    as (l1 & l2 & Heq & Hl1 & ->).
  { apply in_or_app. right. now left. }
  f_equal.
  apply app_eq_app in Heq as [l [[Ha Hb] | [Ha Hb]]].
  - destruct l as [|x l]; simpl in Hb.
    + injection Hb as Hb. subst l2. rewrite app_nil_r in Ha. subst tasks.
      apply app_nil_r.
    + injection Hb as Hx _. subst x. exfalso. apply Hfresh. rewrite Ha.
      apply in_or_app. right. now left.
  - destruct l as [|x l]; simpl in Hb.
    + injection Hb as Hb. subst l2. rewrite app_nil_r in Ha. subst l1.
      apply app_nil_r.
    + injection Hb as _ Hb. now destruct l.
Qed.

Lemma schedule_then_done_restores_witness :
  done_callback
    (ProcessPayload
       {| from := Plain (py "u@dom"); to := Plain (py "a@x.com");
          subject := Plain [];
          timestamp := 7; text := Some (py "hello") |})
    (MessageHandler.handle_message renders 7 plain_message []).1.2
    = Return [].
Proof.
  apply (schedule_then_done_restores renders 7 plain_message []
           {| from := Plain (py "u@dom"); to := Plain (py "a@x.com");
              subject := Plain [];
              timestamp := 7; text := Some (py "hello") |}).
  - reflexivity.
  - intros [].
Defined.

(** ** More on process_payload *)

Section RetryFacts.

Variable insert_one : nat -> option exc.
Variable p : payload.

(** After [n] store-level failures from attempt [a] on, an exception of
    another kind ends the loop. *)
Lemma persist_from_raise n : forall fuel a e,
  (forall k, (a <= k < a + n)%nat ->
             exists info, insert_one k = Some (PyMongoError info)) ->
  insert_one (a + n)%nat = Some e ->
  (forall info, e <> PyMongoError info) ->
  (n < fuel)%nat ->
  MessageHandler.persist insert_one fuel p a (backoff a)
    = (Raised e,
       failed_attempts insert_one p (seq a n) ++ [InsertOne p (Some e)]).
Proof.
  induction n as [|n IH]; intros fuel a e Hfail He Hkind Hfuel;
    (destruct fuel as [|fuel]; [lia|]); simpl.
  - replace (a + 0)%nat with a in He by lia. rewrite He.
    destruct e; try reflexivity. now destruct (Hkind info).
  - destruct (Hfail a ltac:(lia)) as [info Ha]. rewrite Ha.
    rewrite backoff_double. rewrite (IH fuel (S a) e).
    + reflexivity.
    + intros k Hk. apply Hfail. lia.
    + replace (S a + n)%nat with (a + S n)%nat by lia. exact He.
    + exact Hkind.
    + lia.
Qed.

(** While the store keeps failing the loop keeps going. *)
Lemma persist_all_fail : forall fuel a,
  (forall k, exists info, insert_one k = Some (PyMongoError info)) ->
  MessageHandler.persist insert_one fuel p a (backoff a)
    = (Pending, failed_attempts insert_one p (seq a fuel)).
Proof.
  induction fuel as [|fuel IH]; intros a Hfail; simpl; [reflexivity|].
  destruct (Hfail a) as [info Ha]. rewrite Ha, backoff_double.
  rewrite (IH (S a) Hfail). reflexivity.
Qed.

(** Whatever the store does, the waits are 60 * 2^a, 60 * 2^(a+1), ...,
    there is one wait per failed attempt, and at most one attempt more. *)
Lemma persist_waits : forall fuel a,
  let tr := (MessageHandler.persist insert_one fuel p a (backoff a)).2 in
  waits tr = List.map backoff (seq a (length (waits tr)))
  /\ (length (waits tr) <= insert_attempts tr <= S (length (waits tr)))%nat
  /\ (insert_attempts tr <= fuel)%nat.
Proof.
  unfold insert_attempts, waits.
  induction fuel as [|fuel IH]; intros a; simpl.
  - split; [reflexivity | lia].
  - destruct (insert_one a) as [e|].
    + destruct e; try (simpl; split; [reflexivity | lia]).
      rewrite backoff_double. specialize (IH (S a)). simpl in IH.
      destruct (MessageHandler.persist insert_one fuel p (S a)
                  (backoff (S a))) as [o tr].
      simpl in *. destruct IH as (Hw & Hi & Hf).
      split; [|lia]. now rewrite <- Hw.
    + simpl. split; [reflexivity | lia].
Qed.

(** Each wait comes right after the log line that announces its length. *)
Lemma persist_sleep_announced : forall fuel a s pre n post,
  (MessageHandler.persist insert_one fuel p a s).2 = pre ++ Sleep n :: post ->
  exists pre', pre = pre' ++ [LogError (LogRetry n)].
Proof.
  induction fuel as [|fuel IH]; intros a s pre n post; simpl.
  - intros H. now destruct pre.
  - destruct (insert_one a) as [e|].
    + destruct e;
        try (intros H; destruct pre as [|x [|y pre]]; discriminate).
      specialize (IH (S a) (2 * s)%Z).
      destruct (MessageHandler.persist insert_one fuel p (S a) (2 * s))
        as [o tr].
      simpl in *. intros H.
      destruct pre as [|x1 [|x2 [|x3 [|x4 [|x5 pre]]]]]; try discriminate.
      * injection H as <- <- <- <- <- _. now eexists [_; _; _].
      * injection H as <- <- <- <- <- H.
        destruct (IH pre n post H) as [pre' ->].
        eexists (_ :: _ :: _ :: _ :: _ :: pre'). reflexivity.
    + intros H. destruct pre as [|x [|y pre]]; discriminate.
Qed.

End RetryFacts.

Section RunFacts.

Variable insert_one : nat -> option exc.
Variable send_json : websocket -> ws_event -> option exc.
Variable ws : gmap str websocket.
Variable p : payload.

Lemma notify_actions :
  Forall (fun x => is_notify x = true)
         (MessageHandler.notify send_json ws p).2.
Proof.
  unfold MessageHandler.notify. destruct (to p) as [key|v k]; [|constructor].
  destruct (ws !! key); repeat constructor.
Qed.

(** A run is the loop, followed by notification actions only. *)
Lemma process_payload_split fuel :
  exists tr',
    (MessageHandler.process_payload insert_one send_json ws fuel p).2
      = (MessageHandler.persist insert_one fuel p 0 60).2 ++ tr'
    /\ Forall (fun x => is_notify x = true) tr'.
Proof.
  unfold MessageHandler.process_payload.
  destruct (MessageHandler.persist insert_one fuel p 0 60) as [o tr].
  pose proof notify_actions as Hn.
  destruct o; simpl;
    try (exists []; split; [symmetry; apply app_nil_r | constructor]).
  destruct (MessageHandler.notify send_json ws p) as [o' tr'].
  now exists tr'.
Qed.

Lemma notify_only_counts tr' :
  Forall (fun x => is_notify x = true) tr' ->
  waits tr' = [] /\ List.filter is_insert tr' = [].
Proof.
  induction 1 as [|x tr' Hx _ [IHw IHi]]; [split; reflexivity|].
  unfold waits in *. destruct x; try discriminate; simpl; now rewrite ?IHw.
Qed.

End RunFacts.

(** X7: an exception of [insert_one] that is not a store-level error is
    not retried: after [n] store-level failures (each logged and waited
    for) it ends [process_payload] at once with that exception; the failed
    insert is the last action, so nothing is logged, waited for or
    notified after it. *)
Theorem other_exception_ends_unit
    (insert_one : nat -> option exc)
    (send_json : websocket -> ws_event -> option exc)
    (ws : gmap str websocket) (p : payload) (n fuel : nat) (e : exc) :
  (forall k, (k < n)%nat ->
             exists info, insert_one k = Some (PyMongoError info)) ->
  insert_one n = Some e ->
  (forall info, e <> PyMongoError info) ->
  (n < fuel)%nat ->
  MessageHandler.process_payload insert_one send_json ws fuel p
    = (Raised e,
       failed_attempts insert_one p (seq 0 n) ++ [InsertOne p (Some e)]).
Proof.
  intros Hfail He Hkind Hfuel. unfold MessageHandler.process_payload.
  change 60%Z with (backoff 0).
  rewrite (persist_from_raise insert_one p n fuel 0%nat e); auto.
  intros k Hk. apply Hfail. lia.
Qed.

Lemma other_exception_ends_unit_witness :
  MessageHandler.process_payload cancelled_on_second closing_socket
      one_subscriber 4 hello_record
    = (Raised (Exception (py "CancelledError")),
       failed_attempts cancelled_on_second hello_record (seq 0 1)
         ++ [InsertOne hello_record
               (Some (Exception (py "CancelledError")))]).
Proof.
  apply (other_exception_ends_unit cancelled_on_second closing_socket
           one_subscriber hello_record 1 4
           (Exception (py "CancelledError"))).
  - intros k Hk. exists (py "timeout"). destruct k; [reflexivity | lia].
  - reflexivity.
  - discriminate.
  - lia.
Defined.

(** X8: while every insert fails with a store-level error the unit never
    gives up and never notifies: observed for [fuel] iterations it is
    still pending, has made [fuel] insert attempts with waits
    60, 120, ..., 60 * 2^(fuel-1), and has neither read the registry nor
    sent anything. *)
Theorem store_down_keeps_retrying
    (insert_one : nat -> option exc)
    (send_json : websocket -> ws_event -> option exc)
    (ws : gmap str websocket) (p : payload) (fuel : nat) :
  (forall k, exists info, insert_one k = Some (PyMongoError info)) ->
  let run := MessageHandler.process_payload insert_one send_json ws fuel p in
  run = (Pending, failed_attempts insert_one p (seq 0 fuel))
  /\ insert_attempts run.2 = fuel
  /\ waits run.2 = List.map backoff (seq 0 fuel)
  /\ Forall (fun x => is_notify x = false) run.2.
Proof.
  intros Hfail run.
  assert (Hrun : run = (Pending, failed_attempts insert_one p (seq 0 fuel))).
  { unfold run, MessageHandler.process_payload. change 60%Z with (backoff 0).
    now rewrite (persist_all_fail insert_one p fuel 0%nat Hfail). }
  destruct (failed_attempts_count insert_one p (seq 0 fuel)) as [Hi Hw].
  { apply List.Forall_forall. intros k _. apply Hfail. }
  rewrite Hrun. simpl. rewrite Hi, Hw, List.length_seq.
  repeat split.
  pose proof (persist_no_notify insert_one p fuel 0%nat (backoff 0)) as Hn.
  now rewrite (persist_all_fail insert_one p fuel 0%nat Hfail) in Hn.
Qed.

Lemma store_down_keeps_retrying_witness :
  let run := MessageHandler.process_payload store_down closing_socket
               one_subscriber 3 hello_record in
  run = (Pending, failed_attempts store_down hello_record (seq 0 3))
  /\ insert_attempts run.2 = 3%nat
  /\ waits run.2 = List.map backoff (seq 0 3)
  /\ Forall (fun x => is_notify x = false) run.2.
Proof.
  apply (store_down_keeps_retrying store_down closing_socket one_subscriber
           hello_record 3).
  intros k. now exists (py "timeout").
Defined.

(** X10: whatever the store and the websocket do and however long the
    unit is observed, its waits are 60, 120, 240, ... without a gap (the
    k-th wait is 60 * 2^k), every wait follows a failed insert, and there
    is at most one insert more than there are waits, never more inserts
    than loop iterations. *)
Theorem waits_always_double
    (insert_one : nat -> option exc)
    (send_json : websocket -> ws_event -> option exc)
    (ws : gmap str websocket) (p : payload) (fuel : nat) :
  let tr :=
    (MessageHandler.process_payload insert_one send_json ws fuel p).2 in
  waits tr = List.map backoff (seq 0 (length (waits tr)))
  /\ (length (waits tr) <= insert_attempts tr <= S (length (waits tr)))%nat
  /\ (insert_attempts tr <= fuel)%nat.
Proof.
  intros tr.
  destruct (process_payload_split insert_one send_json ws p fuel)
    as (tr' & Htr & Hn).
  destruct (notify_only_counts tr' Hn) as [Hw Hi].
  pose proof (persist_waits insert_one p fuel 0%nat) as H.
  change (backoff 0) with 60%Z in H. simpl in H.
  unfold tr. rewrite Htr. unfold insert_attempts, waits in *.
  rewrite flat_map_app, List.filter_app, Hw, Hi, !app_nil_r. exact H.
Qed.

(** X11: the log tells the truth about the backoff: every wait in a run
    comes immediately after a ['Retry after %s seconds'] line that names
    exactly the number of seconds then waited. *)
Theorem every_wait_is_announced
    (insert_one : nat -> option exc)
    (send_json : websocket -> ws_event -> option exc)
    (ws : gmap str websocket) (p : payload) (fuel : nat)
    (pre post : list action) (n : Z) :
  (MessageHandler.process_payload insert_one send_json ws fuel p).2
    = pre ++ Sleep n :: post ->
  exists pre', pre = pre' ++ [LogError (LogRetry n)].
Proof.
  destruct (process_payload_split insert_one send_json ws p fuel)
    as (tr' & -> & Hn).
  intros H. apply app_eq_app in H as [l [[Ha Hb] | [Ha Hb]]].
  - destruct l as [|x l]; simpl in Hb.
    + subst tr'. apply List.Forall_inv in Hn. discriminate.
    + injection Hb as <- _.
      apply (persist_sleep_announced insert_one p fuel 0%nat 60%Z pre n l Ha).
  - exfalso. rewrite Hb in Hn. apply List.Forall_app in Hn as [_ Hn].
    apply List.Forall_inv in Hn. discriminate.
Qed.

Lemma every_wait_is_announced_witness :
  exists pre',
    [InsertOne hello_record (Some (PyMongoError (py "timeout")));
     LogError (LogExc (PyMongoError (py "timeout")));
     LogError (LogPayload hello_record);
     LogError (LogRetry 60)]
      = pre' ++ [LogError (LogRetry 60)].
Proof.
  apply (every_wait_is_announced store_down closing_socket one_subscriber
           hello_record 1
           [InsertOne hello_record (Some (PyMongoError (py "timeout")));
            LogError (LogExc (PyMongoError (py "timeout")));
            LogError (LogPayload hello_record);
            LogError (LogRetry 60)]
           [] 60).
  vm_compute. reflexivity.
Defined.

(** ** More on the registry *)

Lemma filter_not_in (h : websocket * str) (l : list (websocket * str)) :
  ~ In h l -> List.filter (fun x => negb (bool_decide (x = h))) l = l.
Proof.
  induction l as [|x l IH]; simpl; [reflexivity|]. intros Hn.
  rewrite bool_decide_eq_false_2 by (intros ->; tauto). simpl.
  rewrite IH by tauto. reflexivity.
Qed.

Lemma registry_inv_live (b : Application.app) :
  registry_inv b ->
  (forall email, (length (Application.live b email) <= 1)%nat)
  /\ (forall email w,
        Application._ws_conn b !! email = Some w
        <-> Application.live b email = [w]).
Proof.
  intros [Hnd Hreg]. split.
  - intros email. unfold Application.live. rewrite List.length_map.
    apply (nodup_live _ email Hnd).
  - intros email w. rewrite Hreg. apply (nodup_live _ email Hnd).
Qed.

Lemma finally_registry why websock email a :
  registry_inv a ->
  In (websock, email) (Application.listening a) ->
  Application._ws_conn
    (Application.websocket_handler_finally why websock email a).2
    = delete email (Application._ws_conn a).
Proof.
  intros Hinv Hin. unfold Application.websocket_handler_finally.
  now rewrite (delitem_own websock email a Hinv Hin).
Qed.

Lemma accepted_state send_json websock rq a email :
  query_get (query rq) (py "email") = Some email ->
  Application._ws_conn a !! email = None ->
  Application.websocket_handler send_json websock rq a
    = (Pending,
       Application.with_registry a
         (<[email := websock]> (Application._ws_conn a))
         ((websock, email) :: Application.listening a),
       []).
Proof.
  intros Hq Hfree. unfold Application.websocket_handler. rewrite Hq.
  rewrite bool_decide_eq_false_2; [reflexivity|].
  rewrite Hfree. intros [? ?]. discriminate.
Qed.

(** X12: subscribe and close are inverse to each other: from any state the
    application can reach, an accepted subscription followed by the end of
    that connection (for any reason) gives back exactly the state before
    the subscription, and the [finally] clause raises no [KeyError]. *)
Theorem subscribe_then_close_restores
    (send_json : websocket -> ws_event -> option exc)
    (websock : websocket) (rq : request) (a : Application.app)
    (email : str) (why : leave) :
  Application.reachable a ->
  query_get (query rq) (py "email") = Some email ->
  Application._ws_conn a !! email = None ->
  let a1 := (Application.websocket_handler send_json websock rq a).1.2 in
  Application._ws_conn a1 !! email = Some websock
  /\ Application.websocket_handler_finally why websock email a1
     = (match why with Failed e => Raised e | _ => Done end, a).
Proof.
  intros Hreach Hq Hfree a1.
  destruct (reachable_registry_inv a Hreach) as [Hnd Hreg].
  unfold a1. rewrite (accepted_state send_json websock rq a email Hq Hfree).
  simpl. split; [apply lookup_insert_eq|].
  unfold Application.websocket_handler_finally, Application.delitem. simpl.
  rewrite lookup_insert_eq, delete_insert_id by exact Hfree.
  unfold Application.with_registry. simpl.
  rewrite bool_decide_eq_true_2 by reflexivity. simpl.
  rewrite filter_not_in.
  - now destruct a.
  - intros Hin. apply Hreg in Hin. congruence.
Qed.

Lemma subscribe_then_close_restores_witness :
  let a1 := (Application.websocket_handler socket_up 3 email_request
               fresh_app).1.2 in
  Application._ws_conn a1 !! py "a@x.com" = Some 3%nat
  /\ Application.websocket_handler_finally Shutdown 3 (py "a@x.com") a1
     = (Done, fresh_app).
Proof.
  apply (subscribe_then_close_restores socket_up 3 email_request fresh_app
           (py "a@x.com") Shutdown).
  - apply Application.reach_init.
  - reflexivity.
  - reflexivity.
Defined.

(** X13: an identity becomes free again when its connection ends: in a
    reachable state, once the handler listening for [email] has run its
    [finally] clause, a new subscribe request for the same [email] is
    accepted, the new websocket is registered and nothing is sent to it. *)
Theorem resubscribe_after_close
    (send_json : websocket -> ws_event -> option exc)
    (old new : websocket) (rq : request) (a : Application.app)
    (email : str) (why : leave) :
  Application.reachable a ->
  In (old, email) (Application.listening a) ->
  query_get (query rq) (py "email") = Some email ->
  let a1 := (Application.websocket_handler_finally why old email a).2 in
  exists a2,
    Application.websocket_handler send_json new rq a1 = (Pending, a2, [])
    /\ Application._ws_conn a2 !! email = Some new
    /\ Application.live a2 email = [new].
Proof.
  intros Hreach Hin Hq a1.
  pose proof (reachable_registry_inv a Hreach) as Hinv.
  assert (Hgone : Application._ws_conn a1 !! email = None).
  { unfold a1. rewrite (finally_registry why old email a Hinv Hin).
    apply lookup_delete_eq. }
  pose proof (registry_inv_close why old email a Hinv Hin) as Hinv1.
  fold a1 in Hinv1.
  pose proof (registry_inv_subscribe send_json new rq a1 Hinv1) as Hinv2.
  rewrite (accepted_state send_json new rq a1 email Hq Hgone) in Hinv2.
  simpl in Hinv2.
  eexists. split; [apply (accepted_state send_json new rq a1 email Hq Hgone)|].
  destruct (registry_inv_live _ Hinv2) as [_ Hagree].
  assert (Hl : Application._ws_conn
                 (Application.with_registry a1
                    (<[email := new]> (Application._ws_conn a1))
                    ((new, email) :: Application.listening a1)) !! email
               = Some new) by apply lookup_insert_eq.
  split; [exact Hl | now apply Hagree].
Qed.

Lemma resubscribe_after_close_witness :
  exists a2,
    Application.websocket_handler socket_up 4 email_request
        (Application.websocket_handler_finally ClientClosed 3 (py "a@x.com")
           subscribed_app).2
      = (Pending, a2, [])
    /\ Application._ws_conn a2 !! py "a@x.com" = Some 4%nat
    /\ Application.live a2 (py "a@x.com") = [4%nat].
Proof.
  apply (resubscribe_after_close socket_up 3 4 email_request subscribed_app
           (py "a@x.com") ClientClosed).
  - apply (Application.reach_step fresh_app).
    + apply Application.reach_init.
    + apply (Application.step_subscribe socket_up 3 email_request fresh_app).
  - now left.
  - reflexivity.
Defined.

Lemma registry_inv_size (l : list (websocket * str)) :
  forall m : gmap str websocket,
    NoDup (List.map snd l) ->
    (forall email w, m !! email = Some w <-> In (w, email) l) ->
    size m = length l.
Proof.
  induction l as [|[w e] l IH]; intros m Hnd Hreg.
  - simpl. apply map_size_empty_iff, map_empty. intros i.
    destruct (m !! i) as [x|] eqn:E; [|reflexivity].
    now apply Hreg in E.
  - simpl in Hnd. apply NoDup_cons in Hnd as [Hfresh Hnd].
    assert (Hm : m !! e = Some w) by (apply Hreg; now left).
    rewrite <- (insert_delete_id m e w Hm).
    rewrite map_size_insert_None by apply lookup_delete_eq.
    simpl. f_equal. apply IH; [exact Hnd|].
    intros email x. destruct (decide (e = email)) as [<-|Hne].
    + rewrite lookup_delete_eq. split; [discriminate|].
      intros Hin. exfalso. apply Hfresh. rewrite list_elem_of_In.
      apply (in_map snd) in Hin. exact Hin.
    + rewrite lookup_delete_ne by exact Hne. rewrite Hreg. split.
      * intros [[= _ ?]|Hin]; [congruence | exact Hin].
      * intros Hin. now right.
Qed.

(** X14: the registry never holds a stale entry: in every reachable state
    its keys are exactly the identities of the handlers that are still
    listening, and it has as many entries as there are such handlers. *)
Theorem registry_has_no_stale_entry (a : Application.app) :
  Application.reachable a ->
  (forall email,
     is_Some (Application._ws_conn a !! email)
     <-> In email (List.map snd (Application.listening a)))
  /\ size (Application._ws_conn a) = length (Application.listening a).
Proof.
  intros Hreach. destruct (reachable_registry_inv a Hreach) as [Hnd Hreg].
  split.
  - intros email. split.
    + intros [w Hw]. apply Hreg in Hw. apply (in_map snd) in Hw. exact Hw.
    + intros Hin. apply in_map_iff in Hin as ([w e] & He & Hin).
      simpl in He. subst e. exists w. now apply Hreg.
  - now apply registry_inv_size.
Qed.

Lemma registry_has_no_stale_entry_witness :
  size (Application._ws_conn subscribed_app)
    = length (Application.listening subscribed_app).
Proof.
  refine (proj2 (registry_has_no_stale_entry subscribed_app _)).
  apply (Application.reach_step fresh_app).
  - apply Application.reach_init.
  - apply (Application.step_subscribe socket_up 3 email_request fresh_app).
Defined.

(** ** From the message to the subscriber *)



(** X16: end to end, after the subscriber has gone: once the connection
    that subscribed for an identity has ended, a unit for a record
    addressed to that identity still inserts it, finds no websocket, sends
    nothing and returns normally. *)
Theorem closed_subscriber_gets_nothing
    (insert_one : nat -> option exc)
    (send_json : websocket -> ws_event -> option exc)
    (websock : websocket) (rq : request) (a : Application.app)
    (why : leave) (p : payload) (email : str) (n fuel : nat) :
  to p = Plain email ->
  query_get (query rq) (py "email") = Some email ->
  Application._ws_conn a !! email = None ->
  (forall k, (k < n)%nat ->
             exists info, insert_one k = Some (PyMongoError info)) ->
  insert_one n = None ->
  (n < fuel)%nat ->
  let a1 := (Application.websocket_handler send_json websock rq a).1.2 in
  let a2 :=
    (Application.websocket_handler_finally why websock email a1).2 in
  let run := MessageHandler.process_payload insert_one send_json
               (Application._ws_conn a2) fuel p in
  run = (Done, retry_trace insert_one p n ++ [WsGet email None])
  /\ send_attempts run.2 = 0%nat.
Proof.
  intros Hto Hq Hfree Hfail Hok Hfuel a1 a2 run.
  assert (Hgone : Application._ws_conn a2 !! email = None).
  { unfold a2, a1.
    rewrite (accepted_state send_json websock rq a email Hq Hfree). simpl.
    unfold Application.websocket_handler_finally, Application.delitem. simpl.
    rewrite lookup_insert_eq. simpl. apply lookup_delete_eq. }
  assert (Hrun : run = (Done, retry_trace insert_one p n
                                ++ [WsGet email None])).
  { unfold run, MessageHandler.process_payload. change 60%Z with (backoff 0).
    rewrite (persist_from insert_one p n fuel 0%nat); auto.
    - unfold MessageHandler.notify. now rewrite Hto, Hgone.
    - intros k Hk. apply Hfail. lia. }
  split; [exact Hrun|].
  unfold send_attempts.
  pose proof (persist_no_send insert_one p fuel 0%nat (backoff 0)) as Hns.
  rewrite (persist_from insert_one p n fuel 0%nat) in Hns; auto.
  - rewrite Hrun. simpl in *. unfold retry_trace.
    rewrite List.filter_app, Hns. reflexivity.
  - intros k Hk. apply Hfail. lia.
Qed.

Lemma closed_subscriber_gets_nothing_witness :
  let a1 := (Application.websocket_handler socket_up 3 email_request
               fresh_app).1.2 in
  let a2 :=
    (Application.websocket_handler_finally ClientClosed 3 (py "a@x.com")
       a1).2 in
  let run := MessageHandler.process_payload fails_twice socket_up
               (Application._ws_conn a2) 3 hello_record in
  run = (Done, retry_trace fails_twice hello_record 2
                 ++ [WsGet (py "a@x.com") None])
  /\ send_attempts run.2 = 0%nat.
Proof.
  apply (closed_subscriber_gets_nothing fails_twice socket_up 3 email_request
           fresh_app ClientClosed hello_record (py "a@x.com") 2 3).
  - reflexivity.
  - reflexivity.
  - reflexivity.
  - intros k Hk. exists (py "timeout"). unfold fails_twice.
    destruct (Nat.ltb_spec k 2); [reflexivity | lia].
  - reflexivity.
  - lia.
Defined.

(** X17: a unit never sends to the wrong place: whatever the store and the
    sockets do, every send in a run goes to the websocket registered
    under exactly the record's [to] string, carries the ['new_mail'] event
    with that record, and there is at most one send in the whole run. *)
Theorem sends_only_to_recipient
    (insert_one : nat -> option exc)
    (send_json : websocket -> ws_event -> option exc)
    (ws : gmap str websocket) (p : payload) (fuel : nat) :
  let tr :=
    (MessageHandler.process_payload insert_one send_json ws fuel p).2 in
  (forall w ev r,
     In (SendJson w ev r) tr ->
     exists key,
       to p = Plain key
       /\ ws !! key = Some w
       /\ ev = Event (py "new_mail") (Mail p))
  /\ (send_attempts tr <= 1)%nat.
Proof.
  intros tr. unfold tr, MessageHandler.process_payload, send_attempts.
  pose proof (persist_no_send insert_one p fuel 0%nat 60%Z) as Hns.
  assert (Hnone : forall w ev r,
            ~ In (SendJson w ev r)
                 (MessageHandler.persist insert_one fuel p 0 60).2).
  { intros w ev r Hin.
    assert (Hf : In (SendJson w ev r)
                    (List.filter is_send
                       (MessageHandler.persist insert_one fuel p 0 60).2))
      by (apply List.filter_In; split; [exact Hin | reflexivity]).
    now rewrite Hns in Hf. }
  destruct (MessageHandler.persist insert_one fuel p 0 60) as [o tr0].
  simpl in *.
  destruct o; simpl;
    try (split; [intros w ev r Hin; now apply Hnone in Hin
                | rewrite Hns; simpl; lia]).
  unfold MessageHandler.notify. destruct (to p) as [key|v k] eqn:Hto.
  - destruct (ws !! key) as [w0|] eqn:Hw; simpl.
    + split.
      * intros w ev r [Hin|Hin]%in_app_or; [now apply Hnone in Hin|].
        destruct Hin as [Hin|[Hin|[]]]; [discriminate|].
        injection Hin as <- <- _. now exists key.
      * rewrite List.filter_app, Hns. simpl. lia.
    + split.
      * intros w ev r [Hin|Hin]%in_app_or; [now apply Hnone in Hin|].
        destruct Hin as [Hin|[]]. discriminate.
      * rewrite List.filter_app, Hns. simpl. lia.
  - simpl. rewrite app_nil_r. split.
    + intros w ev r Hin. now apply Hnone in Hin.
    + rewrite Hns. simpl. lia.
Qed.

(** ** When the handlers end *)

Lemma filter_head_nodup (w : websocket) (email : str)
    (l : list (websocket * str)) :
  ~ In email (List.map snd l) ->
  List.filter (fun x => negb (bool_decide (x = (w, email))))
              ((w, email) :: l) = l.
Proof.
  intros Hn. simpl. rewrite bool_decide_eq_true_2 by reflexivity. simpl.
  apply filter_not_in. intros Hin. apply Hn.
  apply (in_map snd) in Hin. exact Hin.
Qed.

Lemma close_handlers_drains why (hs : list (websocket * str)) :
  forall a,
    Application.reachable a ->
    Application.listening a = hs ->
    exists a',
      close_handlers why hs a
        = (List.map (fun _ => match why with
                              | Failed e => Raised e
                              | _ => Done
                              end) hs,
           a')
      /\ Application._ws_conn a' = ∅
      /\ Application.listening a' = []
      /\ Application.reachable a'.
Proof.
  induction hs as [|[w e] hs IH]; intros a Hreach Hl; simpl.
  - pose proof (reachable_registry_inv a Hreach) as [_ Hreg].
    exists a. split; [reflexivity|]. split; [|split; assumption].
    apply map_empty. intros i.
    destruct (Application._ws_conn a !! i) as [x|] eqn:E; [|reflexivity].
    apply Hreg in E. rewrite Hl in E. destruct E.
  - pose proof (reachable_registry_inv a Hreach) as Hinv.
    assert (Hin : In (w, e) (Application.listening a))
      by (rewrite Hl; now left).
    assert (Hstep : Application.reachable
              (Application.websocket_handler_finally why w e a).2).
    { apply (Application.reach_step a); [exact Hreach|].
      now apply Application.step_close. }
    unfold Application.websocket_handler_finally in *.
    rewrite (delitem_own w e a Hinv Hin) in *. simpl in Hstep.
    destruct (IH _ Hstep) as (a' & -> & Hrest).
    + simpl. rewrite Hl. apply filter_head_nodup.
      destruct Hinv as [Hnd _]. rewrite Hl in Hnd. simpl in Hnd.
      apply NoDup_cons in Hnd as [Hfresh _].
      now rewrite <- list_elem_of_In.
    + exists a'. split; [reflexivity | exact Hrest].
Qed.

(** X19: the registry drains: from any reachable state, when the loops of
    all listening handlers end, for whatever reason, every handler ends
    with the outcome that reason gives (normally, or with the error that
    ended its loop): the [del] of no [finally] clause raises [KeyError];
    and the registry and the set of listening handlers are both empty
    afterwards. *)
Theorem all_closed_empties_registry (why : leave) (a : Application.app) :
  Application.reachable a ->
  exists a',
    close_handlers why (Application.listening a) a
      = (List.map (fun _ => match why with
                            | Failed e => Raised e
                            | _ => Done
                            end) (Application.listening a),
         a')
    /\ Application._ws_conn a' = ∅
    /\ Application.listening a' = []
    /\ Application.reachable a'.
Proof.
  intros Hreach. now apply close_handlers_drains.
Qed.

Lemma all_closed_empties_registry_witness :
  exists a',
    close_handlers ClientClosed (Application.listening subscribed_app)
        subscribed_app
      = (List.map (fun _ => Done) (Application.listening subscribed_app), a')
    /\ Application._ws_conn a' = ∅
    /\ Application.listening a' = []
    /\ Application.reachable a'.
Proof.
  apply (all_closed_empties_registry ClientClosed subscribed_app).
  apply (Application.reach_step fresh_app).
  - apply Application.reach_init.
  - apply (Application.step_subscribe socket_up 3 email_request fresh_app).
Defined.

(** ** More on auth_handler *)

(** Cut a string at its first character from [ds]. *)
Lemma span_delims (ds : list N) (s : str) :
  exists u t,
    s = u ++ t
    /\ (forall c, In c ds -> ~ In c u)
    /\ (t = [] \/ exists c t', t = c :: t' /\ In c ds).
Proof.
  induction s as [|c s (u & t & -> & Hu & Ht)].
  - exists [], []. repeat split; auto.
  - destruct (in_dec N.eq_dec c ds) as [Hc|Hc].
    + exists [], (c :: u ++ t). split; [reflexivity|]. split; [auto|].
      right. now exists c, (u ++ t).
    + exists (c :: u), t. split; [reflexivity|]. split; [|exact Ht].
      intros c' Hc' [<-|Hin]; [tauto|]. now apply (Hu c').
Qed.

Lemma rcpt_domain_delimited (h name loc domain tail : str) :
  h = name ++ chr "<" :: loc ++ chr "@" :: domain ++ tail ->
  ~ In (chr "<") name ->
  plain_token loc ->
  plain_token domain ->
  (tail = [] \/ exists c t, tail = c :: t
                            /\ (c = chr "<" \/ c = chr ">" \/ c = chr "@")) ->
  Application.rcpt_domain h = Return domain.
Proof.
  intros -> Hname (Hl1 & Hl2 & Hl3) (Hd1 & Hd2 & Hd3) Htail.
  assert (Hu : forall c, ~ In c loc -> ~ In c domain -> c <> chr "@" ->
                         ~ In c (loc ++ chr "@" :: domain)).
  { intros c H1 H2 H3 [H|[H|H]]%in_app_or; [tauto | congruence | tauto]. }
  assert (Hu60 : ~ In (chr "<") (loc ++ chr "@" :: domain))
    by (apply Hu; auto; vm_compute; discriminate).
  assert (Hu62 : ~ In (chr ">") (loc ++ chr "@" :: domain))
    by (apply Hu; auto; vm_compute; discriminate).
  assert (Hend : bind (getitem (Str.split (chr ">")
                                  (loc ++ chr "@" :: domain)) 0)
                   (fun s2 => getitem (Str.split (chr "@") s2) 1)
                 = Return domain).
  { rewrite split_no_sep by exact Hu62. simpl.
    rewrite split_at_sep by exact Hl3.
    rewrite split_no_sep by exact Hd3. reflexivity. }
  destruct Htail as [-> | (c & t & -> & [-> | [-> | ->]])].
  - unfold Application.rcpt_domain. rewrite split_at_sep by exact Hname.
    rewrite app_nil_r, split_no_sep by exact Hu60. exact Hend.
  - unfold Application.rcpt_domain. rewrite split_at_sep by exact Hname.
    replace (loc ++ chr "@" :: domain ++ chr "<" :: t)
      with ((loc ++ chr "@" :: domain) ++ chr "<" :: t)
      by (now rewrite <- app_assoc).
    rewrite split_at_sep by exact Hu60. exact Hend.
  - apply (rcpt_domain_form _ name loc domain t). now repeat split.
  - unfold Application.rcpt_domain. rewrite split_at_sep by exact Hname.
    destruct (split_prefix_cons (chr "<") (loc ++ chr "@" :: domain)
                (chr "@") t) as (v & ws & E);
      [exact Hu60 | vm_compute; discriminate |].
    rewrite <- app_assoc in E. simpl in E. rewrite E. simpl.
    destruct (split_prefix_cons (chr ">") (loc ++ chr "@" :: domain)
                (chr "@") v) as (v' & ws' & E');
      [exact Hu62 | vm_compute; discriminate |].
    rewrite E'. simpl. rewrite <- app_assoc. simpl.
    rewrite split_at_sep by exact Hl3.
    rewrite split_at_sep by exact Hd3. reflexivity.
Qed.

(** X20: how the domain is cut out: it is the text between the first [@]
    that follows the first [<] and the next [<], [>] or [@] (or the end of
    the header).  In particular a closing [>] is not required, and in
    [<a@x.com@evil.com>] the text after the second [@] is ignored and the
    domain checked is [x.com]. *)
Theorem rcpt_domain_stops_at_delimiter (h name loc domain tail : str) :
  h = name ++ chr "<" :: loc ++ chr "@" :: domain ++ tail ->
  ~ In (chr "<") name ->
  plain_token loc ->
  plain_token domain ->
  (tail = [] \/ exists c t, tail = c :: t
                            /\ (c = chr "<" \/ c = chr ">" \/ c = chr "@")) ->
  Application.rcpt_domain h = Return domain.
Proof. apply rcpt_domain_delimited. Qed.

Lemma rcpt_domain_stops_at_delimiter_witness :
  Application.rcpt_domain (py "<a@x.com@evil.com>") = Return (py "x.com").
Proof.
  apply (rcpt_domain_stops_at_delimiter (py "<a@x.com@evil.com>") []
           (py "a") (py "x.com") (py "@evil.com>")).
  - reflexivity.
  - intros [].
  - repeat split; vm_compute; intros H;
      repeat (destruct H as [H|H]; [discriminate|]); exact H.
  - repeat split; vm_compute; intros H;
      repeat (destruct H as [H|H]; [discriminate|]); exact H.
  - right. exists (chr "@"), (py "evil.com>"). split; [reflexivity|].
    right. now right.
Defined.

(** Every header is of one of the two kinds. *)
Lemma rcpt_cases (h : str) :
  malformed_rcpt h
  \/ exists name loc domain tail,
       h = name ++ chr "<" :: loc ++ chr "@" :: domain ++ tail
       /\ ~ In (chr "<") name
       /\ plain_token loc
       /\ plain_token domain
       /\ (tail = [] \/ exists c t,
             tail = c :: t /\ (c = chr "<" \/ c = chr ">" \/ c = chr "@")).
Proof.
  destruct (span_delims [chr "<"] h) as (pre & t & -> & Hpre & Ht).
  assert (Hpre' : ~ In (chr "<") pre) by (apply Hpre; now left).
  destruct Ht as [-> | (c & r & -> & [<-|[]])].
  { left. left. now rewrite app_nil_r. }
  destruct (span_delims [chr "<"; chr ">"] r)
    as (mid & tail & -> & Hmid & Htail).
  assert (Htail' : tail = [] \/ exists c t,
            tail = c :: t /\ (c = chr "<" \/ c = chr ">")).
  { destruct Htail as [->|(c & t & -> & [<-|[<-|[]]])];
      [now left | right; eexists _, _; eauto | right; eexists _, _; eauto]. }
  destruct (span_delims [chr "@"] mid) as (loc & t2 & -> & Hloc & Ht2).
  assert (Hloc' : plain_token loc).
  { repeat split.
    - intros Hin. apply (Hmid (chr "<")); [now left|].
      apply in_or_app. now left.
    - intros Hin. apply (Hmid (chr ">")); [right; now left|].
      apply in_or_app. now left.
    - apply Hloc. now left. }
  destruct Ht2 as [-> | (c & r2 & -> & [<-|[]])].
  { left. right. exists pre, loc, tail. rewrite app_nil_r in *.
    repeat split; try apply Hloc'; auto. }
  destruct (span_delims [chr "@"] r2) as (d & t3 & -> & Hd & Ht3).
  assert (Hd' : plain_token d).
  { repeat split.
    - intros Hin. apply (Hmid (chr "<")); [now left|].
      apply in_or_app. right. right. apply in_or_app. now left.
    - intros Hin. apply (Hmid (chr ">")); [right; now left|].
      apply in_or_app. right. right. apply in_or_app. now left.
    - apply Hd. now left. }
  right. exists pre, loc, d, (t3 ++ tail).
  split; [repeat (rewrite <- app_assoc; simpl); reflexivity|].
  split; [exact Hpre'|]. split; [exact Hloc'|]. split; [exact Hd'|].
  destruct Ht3 as [-> | (c & t & -> & [<-|[]])].
  - simpl. destruct Htail' as [->|(c & t & -> & [->| ->])];
      [now left | right; eexists _, _; eauto | right; eexists _, _; eauto].
  - right. eexists _, _. split; [reflexivity|]. right. now right.
Qed.

(** X21: the extraction fails exactly on the malformed headers, and only
    with [IndexError]: [rcpt_domain] raises if and only if the header has
    no [<] or has no [@] in the text after its first [<] (up to the next
    [<] or [>]); in every other case it returns a domain, and that domain
    contains none of [<], [>] and [@]. *)
Theorem rcpt_domain_fails_iff_malformed (h : str) :
  (Application.rcpt_domain h = Raise IndexError <-> malformed_rcpt h)
  /\ (forall e, Application.rcpt_domain h = Raise e -> e = IndexError)
  /\ (forall d, Application.rcpt_domain h = Return d -> plain_token d).
Proof.
  destruct (rcpt_cases h)
    as [Hbad | (name & loc & d & tail & Hh & Hn & Hl & Hd & Ht)].
  - pose proof (rcpt_domain_malformed h Hbad) as E. rewrite E.
    split; [tauto|]. split; [now intros e [= <-] | discriminate].
  - pose proof (rcpt_domain_delimited h name loc d tail Hh Hn Hl Hd Ht) as E.
    rewrite E. split; [|split; [discriminate | now intros d' [= <-]]].
    split; [discriminate|]. intros Hbad.
    pose proof (rcpt_domain_malformed h Hbad) as E'. congruence.
Qed.

Lemma headers_lookup_cases (hs : list (str * str)) (name : str) :
  headers_lookup hs name = Raise (KeyError name)
  \/ exists v, headers_lookup hs name = Return v.
Proof.
  induction hs as [|[k v] hs IH]; simpl; [now left|].
  destruct (bool_decide (Str.lower k = Str.lower name));
    [right; eauto | exact IH].
Qed.

(** X22: everything [auth_handler] can do.  For every request it either
    raises [IndexError] (no domain could be extracted), answers FORBIDDEN
    (the extracted domain is not in the allow-list), answers OK with the
    [Host] of the request and the SMTP port (the extracted domain is in
    the allow-list), or raises [KeyError] for a missing [Host] (again only
    for an allowed domain).  It never answers OK for a domain outside the
    allow-list, every answer has status 200, and the application state is
    never changed. *)
Theorem auth_handler_outcomes (rq : request) (a : Application.app) :
  let h := headers_get rq (py "Auth-SMTP-To") [] in
  (malformed_rcpt h
   /\ Application.auth_handler rq a = (Raise IndexError, a))
  \/ (exists d,
        Application.rcpt_domain h = Return d
        /\ ~ In d (Application._allow_domains a)
        /\ Application.auth_handler rq a = (Return forbidden_response, a))
  \/ (exists d host,
        Application.rcpt_domain h = Return d
        /\ In d (Application._allow_domains a)
        /\ headers_lookup (req_headers rq) (py "Host") = Return host
        /\ Application.auth_handler rq a
           = (Return (ok_response host (Application._smtp_port a)), a))
  \/ (exists d,
        Application.rcpt_domain h = Return d
        /\ In d (Application._allow_domains a)
        /\ Application.auth_handler rq a = (Raise (KeyError (py "Host")), a)).
Proof.
  intros h. unfold Application.auth_handler. fold h.
  destruct (rcpt_cases h)
    as [Hbad | (name & loc & d & tail & Hh & Hn & Hl & Hd & Ht)].
  - left. split; [exact Hbad|]. now rewrite (rcpt_domain_malformed h Hbad).
  - right.
    pose proof (rcpt_domain_delimited h name loc d tail Hh Hn Hl Hd Ht) as E.
    rewrite E. simpl.
    destruct (decide (d ∈ Application._allow_domains a)) as [Hin|Hout];
      rewrite list_elem_of_In in *.
    + right. destruct (filter_eq_cons _ _ Hin) as (x & xs & ->).
      destruct (headers_lookup_cases (req_headers rq) (py "Host"))
        as [Hk | [host Hk]]; rewrite Hk; simpl.
      * right. now exists d.
      * left. now exists d, host.
    + left. exists d. rewrite (filter_eq_nil _ _ Hout). now repeat split.
Qed.


(** ** One record, stored once *)

Lemma persist_inserts (insert_one : nat -> option exc) (p : payload) :
  forall fuel a s,
    let run := MessageHandler.persist insert_one fuel p a s in
    (forall q r, In (InsertOne q r) run.2 -> q = p)
    /\ (length (List.filter is_stored run.2) <= 1)%nat
    /\ (run.1 = Done -> In (InsertOne p None) run.2).
Proof.
  induction fuel as [|fuel IH]; intros a s; simpl.
  - split; [intros q r []|]. split; [simpl; lia | discriminate].
  - destruct (insert_one a) as [e|].
    + destruct e;
        try (split; [intros q r [[= <- _]|[]]; reflexivity|];
             split; [simpl; lia | discriminate]).
      specialize (IH (S a) (2 * s)%Z).
      destruct (MessageHandler.persist insert_one fuel p (S a) (2 * s))
        as [o tr].
      simpl in *. destruct IH as (Hq & Hc & Hd).
      split; [|split].
      * intros q r [[= <- _]|[?|[?|[?|[?|Hin]]]]]; try discriminate;
          [reflexivity | now apply (Hq q r)].
      * exact Hc.
      * intros Ho. do 5 right. now apply Hd.
    + split; [intros q r [[= <- _]|[]]; reflexivity|].
      split; [simpl; lia | intros _; now left].
Qed.

(** X23: one record, stored at most once: whatever the store and the
    sockets do, every insert attempt of a unit is for the record it was
    started with, at most one of them succeeds (a success ends the loop),
    and the unit returns normally only if one did. *)
Theorem record_stored_at_most_once
    (insert_one : nat -> option exc)
    (send_json : websocket -> ws_event -> option exc)
    (ws : gmap str websocket) (p : payload) (fuel : nat) :
  let run := MessageHandler.process_payload insert_one send_json ws fuel p in
  (forall q r, In (InsertOne q r) run.2 -> q = p)
  /\ (length (List.filter is_stored run.2) <= 1)%nat
  /\ (run.1 = Done -> In (InsertOne p None) run.2).
Proof.
  intros run. unfold run, MessageHandler.process_payload.
  pose proof (persist_inserts insert_one p fuel 0%nat 60%Z) as H.
  destruct (MessageHandler.persist insert_one fuel p 0 60) as [o tr].
  simpl in H. destruct H as (Hq & Hc & Hd).
  destruct o; simpl; try (split; [exact Hq | split; [exact Hc | discriminate]]).
  pose proof (notify_actions send_json ws p) as Hn.
  destruct (MessageHandler.notify send_json ws p) as [o' tr'].
  simpl in *.
  assert (Hnone : forall x, In x tr' -> is_notify x = true)
    by (now apply List.Forall_forall).
  split; [|split].
  - intros q r [Hin|Hin]%in_app_or; [now apply (Hq q r)|].
    apply Hnone in Hin. discriminate.
  - rewrite List.filter_app, List.length_app.
    replace (List.filter is_stored tr') with (@nil action); [simpl; lia|].
    symmetry. apply filter_none. apply List.Forall_forall.
    intros x Hx. apply Hnone in Hx. now destruct x.
  - intros _. apply in_or_app. left. now apply Hd.
Qed.

(** ** A subscribe request and the other subscribers *)

Lemma reject_actions send_json websock msg :
  Forall (error_or_close websock)
         (Application.reject send_json websock msg).2.
Proof.
  unfold Application.reject, Application.error_event.
  destruct (send_json websock _); simpl.
  - constructor; [left; now eexists _, _ | constructor].
  - constructor; [left; now eexists _, _|].
    constructor; [now right | constructor].
Qed.

(** X24: a subscribe request never disturbs anyone else: every action of
    [websocket_handler] is on the websocket of the request itself, and is
    either a send of an error event or a close; no event is sent to, and
    no close is performed on, the websocket of an existing subscriber, and
    an accepted request performs no action at all before it starts to
    listen. *)
Theorem subscribe_touches_own_socket_only
    (send_json : websocket -> ws_event -> option exc)
    (websock : websocket) (rq : request) (a : Application.app) :
  let run := Application.websocket_handler send_json websock rq a in
  Forall (error_or_close websock) run.2
  /\ (run.1.1 = Pending -> run.2 = []).
Proof.
  intros run. unfold run, Application.websocket_handler.
  destruct (query_get (query rq) (py "email")) as [email|].
  - destruct (bool_decide (is_Some (Application._ws_conn a !! email))).
    + pose proof (reject_actions send_json websock
                    "subscriber already exists") as Hr.
      unfold Application.reject in *.
      destruct (send_json websock _); simpl in *;
        (split; [exact Hr | discriminate]).
    + simpl. split; [constructor | reflexivity].
  - pose proof (reject_actions send_json websock
                  "email should be defined") as Hr.
    unfold Application.reject in *.
    destruct (send_json websock _); simpl in *;
      (split; [exact Hr | discriminate]).
Qed.
